(** * A shallow embedding of the go-raytracer engine

    The Go sources compute on [float64]; the embedding uses Rocq's primitive
    binary64 floats, so every definition below evaluates to the value the Go
    program computes.  The development is organised like the repository:

    - [Float64]: the conversions and the operations of Go's [math] package
      that the program calls;
    - [raytracing]: [pkg/raytracing/linearalgebra.go] (vectors, colors,
      materials, lights, the lighting models, [AverageColors]), and
      [rotation] its [Rotate] and [Multiply];
    - [object]: [pkg/raytracing/object] (sphere, plane, box and the
      [Object] interface), and [Triangle];
    - [scene]: [internal/scene] ([Initialize], [FindIntersection],
      [TraceRay]);
    - [camera]: [internal/camera/camera.go] (the sample loops of [Render],
      and [renderRays]), [scope] its [Scope], and [lens] the three lenses.

    In the objects, the scene, the scope and the lenses a [nil] pointer is
    [None], and a call that can panic says so in its result type.

    The properties follow the definitions: [Float64Facts], [Float64Arith]
    and [Float64Opp] have the order and the arithmetic of binary64 values;
    [raytracing_spec], [object_spec], [scene_spec] and [camera_spec], and
    the modules named [_props], have the properties of each package;
    [examples] and [instances] evaluate the program on concrete scenes. *)

From Stdlib Require Import ZArith List Bool Lia String Floats.
From Stdlib Require Uint63 DecimalString.
Import ListNotations.

Set Warnings "-inexact-float".

(* ================================================================== *)
(** * float64 *)
(* ================================================================== *)

Module Float64.

Local Open Scope float_scope.

Abbreviation float64 := float.

(** [float64(n)] for a Go [int] holding a length or a loop counter
    (exact for [|n| < 2^53], rounded to nearest beyond). *)
Definition of_int (n : Z) : float64 :=
  if (n <? 0)%Z then - PrimFloat.of_uint63 (Uint63.of_Z (- n))
  else PrimFloat.of_uint63 (Uint63.of_Z n).

(** A conversion of a [float64] to an integer type discards the fraction;
    [truncate] is [None] for NaN and the infinities. *)
Definition truncate (f : float64) : option Z :=
  match Prim2SF f with
  | S754_zero _ => Some 0%Z
  | S754_finite s m e =>
      let n := match e with
               | Zneg k => Z.shiftr (Zpos m) (Zpos k)
               | _ => Z.shiftl (Zpos m) e
               end in
      Some (if s then (- n)%Z else n)
  | _ => None
  end.

(** The value of [uint8(f)] where the Go specification fixes it: the
    truncation, when it fits the type. *)
Definition exact_uint8 (f : float64) : option Z :=
  match truncate f with
  | Some n => if (0 <=? n)%Z && (n <=? 255)%Z then Some n else None
  | None => None
  end.

(** [uint8(f)].  For a value that does not fit, the conversion succeeds
    with a result the specification leaves to the implementation:
    [overflow] stands for that result. *)
Definition uint8 (overflow : float64 -> Z) (f : float64) : Z :=
  match exact_uint8 f with
  | Some n => n
  | None => overflow f
  end.

(** [math.MaxFloat64] and [math.IsInf(f, sign)]. *)
Definition MaxFloat64 : float64 := 0x1.fffffffffffffp+1023.

Definition IsInf (f : float64) (sign : Z) : bool :=
  ((0 <=? sign)%Z && (MaxFloat64 <? f)) || ((sign <=? 0)%Z && (f <? - MaxFloat64)).

(** [math.IsNaN]. *)
Definition IsNaN (f : float64) : bool := negb (f =? f).

(** [math.Signbit]. *)
Definition Signbit (f : float64) : bool := get_sign f.

(** [math.Min] (the portable definition of package [math]). *)
Definition Min (x y : float64) : float64 :=
  if IsInf x (-1) || IsInf y (-1) then neg_infinity
  else if IsNaN x || IsNaN y then nan
  else if (x =? 0) && (x =? y) then (if Signbit x then x else y)
  else if x <? y then x else y.

(** [math.Max]. *)
Definition Max (x y : float64) : float64 :=
  if IsInf x 1 || IsInf y 1 then infinity
  else if IsNaN x || IsNaN y then nan
  else if (x =? 0) && (x =? y) then (if Signbit x then y else x)
  else if y <? x then x else y.

(** [math.Abs] and [math.Sqrt] are the IEEE operations. *)
Definition Abs (x : float64) : float64 := PrimFloat.abs x.
Definition Sqrt (x : float64) : float64 := PrimFloat.sqrt x.

End Float64.

(* ================================================================== *)
(** * pkg/raytracing *)
(* ================================================================== *)

Module raytracing.

Import Float64.
Local Open Scope float_scope.

(** Each arithmetic operation is rounded on its own, in the order Go's
    grammar gives it (no fused multiply-add, as on amd64). *)

Record Vector := { X : float64; Y : float64; Z : float64 }.

Definition Dot (v other : Vector) : float64 :=
  X v * X other + Y v * Y other + Z v * Z other.

Definition Cross (v other : Vector) : Vector :=
  {| X := Y v * Z other - Z v * Y other;
     Y := Z v * X other - X v * Z other;
     Z := X v * Y other - Y v * X other |}.

Definition Magnitude (v : Vector) : float64 := Sqrt (Dot v v).

Definition Add (v other : Vector) : Vector :=
  {| X := X v + X other; Y := Y v + Y other; Z := Z v + Z other |}.

Definition Subtract (v other : Vector) : Vector :=
  {| X := X v - X other; Y := Y v - Y other; Z := Z v - Z other |}.

Definition Negative (v : Vector) : Vector :=
  {| X := - X v; Y := - Y v; Z := - Z v |}.

Definition Scale (v : Vector) (scale : float64) : Vector :=
  {| X := X v * scale; Y := Y v * scale; Z := Z v * scale |}.

(** [Normalize] returns the vector and the success flag. *)
Definition Normalize (v : Vector) : Vector * bool :=
  let mag := Magnitude v in
  if mag <=? 0.0 then (v, false)
  else (Scale v (1.0 / mag), true).

Record Ray := { Position : Vector; Direction : Vector }.

Record Color := { Red : float64; Green : float64; Blue : float64 }.

Module Material.
Record t := {
  Specular : Color;
  Diffuse : Color;
  Ambient : Color;
  Alpha : float64;
  Reflectance : float64 }.
End Material.
Abbreviation Material := Material.t.

Module Light.
Record t := {
  Position : Vector;
  Specular : Color;
  Diffuse : Color;
  Ambient : Color }.
End Light.
Abbreviation Light := Light.t.

(** The zero value [Color{}]. *)
Definition black : Color := {| Red := 0; Green := 0; Blue := 0 |}.

(** One iteration of the loop of [LambertianReflectance]; [continue]
    leaves the accumulated color as it is. *)
Definition lambertianStep (position normal : Vector) (material : Material)
    (color : Color) (light : Light) : Color :=
  let dist := Subtract (Light.Position light) position in
  if Dot normal dist <=? 0.0 then color
  else
    let '(lightVec, ok) := Normalize dist in
    if negb ok then color
    else
      let surfaceLightLevel := Dot lightVec normal in
      {| Red := Red color
           + surfaceLightLevel * Red (Light.Diffuse light) * Red (Material.Diffuse material);
         Green := Green color
           + surfaceLightLevel * Green (Light.Diffuse light) * Green (Material.Diffuse material);
         Blue := Blue color
           + surfaceLightLevel * Blue (Light.Diffuse light) * Blue (Material.Diffuse material) |}.

Definition LambertianReflectance (lights : list Light) (position normal : Vector)
    (material : Material) : Color :=
  fold_left (lambertianStep position normal material) lights black.

Section Phong.

(** [math.Pow] is not part of the repository; the lighting model is
    stated for any function in its place. *)
Variable Pow : float64 -> float64 -> float64.

(** One iteration of the loop of [PhongReflectance]. *)
Definition phongStep (viewer position normal : Vector) (material : Material)
    (color : Color) (light : Light) : Color :=
  let dist := Subtract (Light.Position light) position in
  if Dot normal dist <=? 0.0 then color
  else
    let '(lightVec, ok) := Normalize dist in
    if negb ok then color
    else
      let reflectDiff := Scale normal (2.0 * Dot lightVec normal) in
      let reflectedLight := Subtract reflectDiff lightVec in
      let '(reflectedLight, ok) := Normalize reflectedLight in
      if negb ok then color
      else
        let diffCoef := Max 0.0 (Dot lightVec normal) in
        let diffuse :=
          {| Red := diffCoef * Red (Light.Diffuse light) * Red (Material.Diffuse material);
             Green := diffCoef * Green (Light.Diffuse light) * Green (Material.Diffuse material);
             Blue := diffCoef * Blue (Light.Diffuse light) * Blue (Material.Diffuse material) |} in
        let specBase := Max 0.0 (Dot reflectedLight viewer) in
        let specCoef := Pow specBase (Material.Alpha material) in
        let specCoef := if specBase <=? 0.0 then 0.0 else specCoef in
        let specular :=
          {| Red := specCoef * Red (Light.Specular light) * Red (Material.Specular material);
             Green := specCoef * Green (Light.Specular light) * Green (Material.Specular material);
             Blue := specCoef * Blue (Light.Specular light) * Blue (Material.Specular material) |} in
        {| Red := Red color + (Red diffuse + Red specular);
           Green := Green color + (Green diffuse + Green specular);
           Blue := Blue color + (Blue diffuse + Blue specular) |}.

Definition PhongReflectance (lights : list Light) (ambientLight : Color)
    (viewer position normal : Vector) (material : Material) : Color :=
  let color := fold_left (phongStep viewer position normal material) lights black in
  {| Red := Red color + Red ambientLight * Red (Material.Ambient material);
     Green := Green color + Green ambientLight * Green (Material.Ambient material);
     Blue := Blue color + Blue ambientLight * Blue (Material.Ambient material) |}.

End Phong.

(** The type [LightingModel] of the argument of [Scene.TraceRay]. *)
Definition LightingModel : Type :=
  list Light -> Color -> Vector -> Vector -> Vector -> Material -> Color.

(** One iteration of the loop of [AverageColors]. *)
Definition addColor (average color : Color) : Color :=
  {| Red := Red average + Red color;
     Green := Green average + Green color;
     Blue := Blue average + Blue color |}.

Definition AverageColors (colors : list Color) : Color :=
  let average := fold_left addColor colors black in
  let n := of_int (Z.of_nat (List.length colors)) in
  {| Red := Red average / n; Green := Green average / n; Blue := Blue average / n |}.

End raytracing.

(* ================================================================== *)
(** * pkg/raytracing/object *)
(* ================================================================== *)

Module object.

Import Float64.
Local Open Scope float_scope.

Abbreviation Vector := raytracing.Vector.
Abbreviation Ray := raytracing.Ray.

(** Every primitive embeds [*Material], a pointer to a struct whose one
    field is the index of the material: [Some id] is the pointer to
    [Material{id}], and [None] is the [nil] pointer that decoding an object
    without a ["material"] leaves.  [MaterialID] reads the index through
    the pointer; its [None] is the run-time panic of the [nil] pointer. *)

Module Sphere.
Record t := { Material : option BinNums.Z; Radius : float64; Center : Vector }.

Definition Intersect (s : t) (r : Ray) (maxRange : float64) : bool * float64 :=
  let A := raytracing.Dot (raytracing.Direction r) (raytracing.Direction r) in
  let dist := raytracing.Subtract (raytracing.Position r) (Center s) in
  let B := 2 * raytracing.Dot (raytracing.Direction r) dist in
  let C := raytracing.Dot dist dist - (Radius s * Radius s) in
  let discriminant := B * B - 4 * A * C in
  if discriminant <? 0.0 then (false, maxRange)
  else
    let sqrtdiscr := Sqrt discriminant in
    let t0 := (- B + sqrtdiscr) / (2 * A) in
    let t1 := (- B - sqrtdiscr) / (2 * A) in
    let t := Min t0 t1 in
    if (1e-4 <? t) && (t <? maxRange) then (true, t)
    else (false, maxRange).

(** The method of [sphere.go] reads the position of its argument; the
    [Object] interface and [TraceRay] pass the point itself. *)
Definition SurfaceNormal (s : t) (point : Vector) : Vector :=
  fst (raytracing.Normalize (raytracing.Subtract point (Center s))).

Definition MaterialID (s : t) : option BinNums.Z := Material s.
End Sphere.

Module Plane.
Record t := { Material : option BinNums.Z; Normal : Vector; Point : Vector }.

Definition Intersect (p : t) (r : Ray) (maxRange : float64) : bool * float64 :=
  let denominator := raytracing.Dot (raytracing.Direction r) (Normal p) in
  if Abs denominator <? 1e-8 then (false, maxRange)
  else
    let delta := raytracing.Subtract (Point p) (raytracing.Position r) in
    let numerator := raytracing.Dot delta (Normal p) in
    let t := numerator / denominator in
    if (1e-4 <? t) && (t <? maxRange) then (true, t)
    else (false, maxRange).

Definition SurfaceNormal (p : t) (point : Vector) : Vector := Normal p.

(** [Plane.Normalize], run by the factory. *)
Definition Normalize (p : t) : t :=
  {| Material := Material p;
     Normal := fst (raytracing.Normalize (Normal p));
     Point := Point p |}.

Definition MaterialID (p : t) : option BinNums.Z := Material p.
End Plane.

Module Box.
Record t := {
  Material : option BinNums.Z;
  MinCorner : Vector;
  MaxCorner : Vector;
  center : Vector;
  extent : Vector }.

(** [Box.Initialize], run by the factory: the corners are put in order
    and the center and extent computed. *)
Definition Initialize (b : t) : t :=
  let order lo hi := if hi <? lo then (hi, lo) else (lo, hi) in
  let '(minX, maxX) := order (raytracing.X (MinCorner b)) (raytracing.X (MaxCorner b)) in
  let '(minY, maxY) := order (raytracing.Y (MinCorner b)) (raytracing.Y (MaxCorner b)) in
  let '(minZ, maxZ) := order (raytracing.Z (MinCorner b)) (raytracing.Z (MaxCorner b)) in
  let minCorner := {| raytracing.X := minX; raytracing.Y := minY; raytracing.Z := minZ |} in
  let maxCorner := {| raytracing.X := maxX; raytracing.Y := maxY; raytracing.Z := maxZ |} in
  let center := raytracing.Scale (raytracing.Add maxCorner minCorner) 0.5 in
  {| Material := Material b;
     MinCorner := minCorner;
     MaxCorner := maxCorner;
     center := center;
     extent := raytracing.Subtract maxCorner center |}.

Definition signum (f : float64) : float64 :=
  if f <? 0.0 then -1.0 else 1.0.

Definition Intersect (b : t) (r : Ray) (maxRange : float64) : bool * float64 :=
  let px := raytracing.X (raytracing.Position r) in
  let py := raytracing.Y (raytracing.Position r) in
  let pz := raytracing.Z (raytracing.Position r) in
  let dx := raytracing.X (raytracing.Direction r) in
  let dy := raytracing.Y (raytracing.Direction r) in
  let dz := raytracing.Z (raytracing.Direction r) in
  let x1 := (raytracing.X (MinCorner b) - px) / dx in
  let x2 := (raytracing.X (MaxCorner b) - px) / dx in
  let tMin := Min x1 x2 in
  let tMax := Max x1 x2 in
  let y1 := (raytracing.Y (MinCorner b) - py) / dy in
  let y2 := (raytracing.Y (MaxCorner b) - py) / dy in
  let tMin := Max tMin (Min y1 y2) in
  let tMax := Min tMax (Max y1 y2) in
  let z1 := (raytracing.Z (MinCorner b) - pz) / dz in
  let z2 := (raytracing.Z (MaxCorner b) - pz) / dz in
  let tMin := Max tMin (Min z1 z2) in
  let tMax := Min tMax (Max z1 z2) in
  if (tMin <? tMax) && (1e-4 <? tMin) && (tMin <? maxRange) then (true, tMin)
  else (false, maxRange).

Definition SurfaceNormal (b : t) (point : Vector) : Vector :=
  let relativePoint := raytracing.Subtract point (center b) in
  let minDistance := Abs (Abs (raytracing.X relativePoint) - raytracing.X (extent b)) in
  let normal :=
    {| raytracing.X := signum (raytracing.X relativePoint);
       raytracing.Y := 0; raytracing.Z := 0 |} in
  let distance := Abs (Abs (raytracing.Y relativePoint) - raytracing.Y (extent b)) in
  let '(minDistance, normal) :=
    if distance <? minDistance
    then (distance,
          {| raytracing.X := 0;
             raytracing.Y := signum (raytracing.Y relativePoint);
             raytracing.Z := 0 |})
    else (minDistance, normal) in
  let distance := Abs (Abs (raytracing.Z relativePoint) - raytracing.Z (extent b)) in
  if distance <? minDistance
  then {| raytracing.X := 0; raytracing.Y := 0;
          raytracing.Z := signum (raytracing.Z relativePoint) |}
  else normal.

Definition MaterialID (b : t) : option BinNums.Z := Material b.
End Box.

(** The [Object] interface; [objectFactoryMap] registers exactly these
    three implementations. *)
Inductive Object :=
  | OfSphere (s : Sphere.t)
  | OfPlane (p : Plane.t)
  | OfBox (b : Box.t).

Definition Intersect (o : Object) (r : Ray) (maxRange : float64) : bool * float64 :=
  match o with
  | OfSphere s => Sphere.Intersect s r maxRange
  | OfPlane p => Plane.Intersect p r maxRange
  | OfBox b => Box.Intersect b r maxRange
  end.

Definition SurfaceNormal (o : Object) (point : Vector) : Vector :=
  match o with
  | OfSphere s => Sphere.SurfaceNormal s point
  | OfPlane p => Plane.SurfaceNormal p point
  | OfBox b => Box.SurfaceNormal b point
  end.

Definition MaterialID (o : Object) : option BinNums.Z :=
  match o with
  | OfSphere s => Sphere.MaterialID s
  | OfPlane p => Plane.MaterialID p
  | OfBox b => Box.MaterialID b
  end.

End object.

(* ================================================================== *)
(** * internal/scene *)
(* ================================================================== *)

Module scene.

Import Float64.
Local Open Scope float_scope.

Abbreviation Vector := raytracing.Vector.
Abbreviation Ray := raytracing.Ray.
Abbreviation Color := raytracing.Color.
Abbreviation Material := raytracing.Material.
Abbreviation Light := raytracing.Light.
Abbreviation Object := object.Object.

Record Scene := {
  Materials : list Material;
  Objects : list Object;
  Lights : list Light;
  ambientLight : Color }.

(** [len(x)] as a Go [int]. *)
Definition len {A : Type} (l : list A) : Z := Z.of_nat (List.length l).

(** [l[i]] for a Go [int] index; [None] is the run-time panic. *)
Definition index {A : Type} (l : list A) (i : Z) : option A :=
  if (i <? 0)%Z then None else nth_error l (Z.to_nat i).

(** [%d] of [fmt.Sprintf]. *)
Definition itoa (i : Z) : string :=
  DecimalString.NilZero.string_of_int (Z.to_int i).

(** How a call ends: with its result, or in a run-time panic (an index
    out of range, a [nil] pointer). *)
Inductive outcome (A : Type) :=
  | Returns (a : A)
  | Panics.
Arguments Returns {A} a.
Arguments Panics {A}.

(** The first loop of [Initialize], scanning from object [i]: the index of
    the first object whose material id does not resolve, if there is one.
    The call of [MaterialID] panics on an object without a material. *)
Fixpoint firstInvalid (materials : Z) (objects : list Object) (i : Z)
    : outcome (option Z) :=
  match objects with
  | [] => Returns None
  | object :: rest =>
      match object.MaterialID object with
      | None => Panics
      | Some materialID =>
          if (materialID <? 0)%Z || (materialID >=? materials)%Z then Returns (Some i)
          else firstInvalid materials rest (i + 1)
      end
  end.

(** One iteration of the second loop of [Initialize]. *)
Definition addAmbient (ambient : Color) (light : Light) : Color :=
  {| raytracing.Red := raytracing.Red ambient + raytracing.Red (raytracing.Light.Ambient light);
     raytracing.Green :=
       raytracing.Green ambient + raytracing.Green (raytracing.Light.Ambient light);
     raytracing.Blue :=
       raytracing.Blue ambient + raytracing.Blue (raytracing.Light.Ambient light) |}.

(** [Initialize] works on the scene in place; the embedding returns the
    scene it leaves behind together with the error ([None] is [nil]). *)
Definition Initialize (s : Scene) : outcome (Scene * option string) :=
  match firstInvalid (len (Materials s)) (Objects s) 0 with
  | Panics => Panics
  | Returns (Some i) =>
      Returns (s, Some ("invalid material id in object " ++ itoa i)%string)
  | Returns None =>
      let ambient := fold_left addAmbient (Lights s) raytracing.black in
      let n := of_int (len (Lights s)) in
      Returns
        ({| Materials := Materials s;
            Objects := Objects s;
            Lights := Lights s;
            ambientLight :=
              {| raytracing.Red := raytracing.Red ambient / n;
                 raytracing.Green := raytracing.Green ambient / n;
                 raytracing.Blue := raytracing.Blue ambient / n |} |},
         None)
  end.

(** The loop of [FindIntersection] from object [i] on, with the current
    values of [t] and [currentObject]. *)
Fixpoint scan (r : Ray) (objects : list Object) (i : Z) (t : float64)
    (currentObject : Z) : float64 * Z :=
  match objects with
  | [] => (t, currentObject)
  | object :: rest =>
      let '(intersected, t) := object.Intersect object r t in
      scan r rest (i + 1) t (if intersected then i else currentObject)
  end.

Definition FindIntersection (s : Scene) (r : Ray) : bool * float64 * Z :=
  let '(t, currentObject) := scan r (Objects s) 0 20000.0 (-1) in
  (negb (currentObject =? -1)%Z, t, currentObject).

(** One iteration of the shadow loop of [TraceRay]. *)
Definition shadowStep (s : Scene) (intersection : Vector)
    (visibleLights : list Light) (light : Light) : list Light :=
  let lightRay :=
    {| raytracing.Position := intersection;
       raytracing.Direction :=
         raytracing.Subtract (raytracing.Light.Position light) intersection |} in
  let '(intersected, distance, _) := FindIntersection s lightRay in
  if negb intersected then visibleLights ++ [light]
  else if 1.0 <? distance then visibleLights ++ [light]
  else visibleLights.

Definition visibleLights (s : Scene) (intersection : Vector) : list Light :=
  fold_left (shadowStep s intersection) (Lights s) [].

(** [TraceRay].  [calls] bounds the nesting of the recursive calls below
    this one: the result is [None] exactly when the call would need a
    recursion nested deeper than [calls]. *)
Fixpoint TraceRay (calls : nat) (s : Scene) (r : Ray) (lightStrength : float64)
    (remainingDepth : Z) (lighting : raytracing.LightingModel)
    : option (outcome Color) :=
  let '(intersected, t, currentObject) := FindIntersection s r in
  if negb intersected then Some (Returns raytracing.black)
  else
    let scaled := raytracing.Scale (raytracing.Direction r) t in
    let intersection := raytracing.Add (raytracing.Position r) scaled in
    match index (Objects s) currentObject with
    | None => Some Panics
    | Some object =>
    let normal := object.SurfaceNormal object intersection in
    match object.MaterialID object with
    | None => Some Panics
    | Some materialID =>
    match index (Materials s) materialID with
    | None => Some Panics
    | Some material =>
    let viewer := raytracing.Negative (raytracing.Direction r) in
    let '(viewer, ok) := raytracing.Normalize viewer in
    if negb ok then Some (Returns raytracing.black)
    else
      let visibleLights := visibleLights s intersection in
      let surfaceColor :=
        lighting visibleLights (ambientLight s) viewer intersection normal material in
      let color :=
        {| raytracing.Red := 0 + raytracing.Red surfaceColor * lightStrength;
           raytracing.Green := 0 + raytracing.Green surfaceColor * lightStrength;
           raytracing.Blue := 0 + raytracing.Blue surfaceColor * lightStrength |} in
      let reflect := 2.0 * raytracing.Dot (raytracing.Direction r) normal in
      let direction :=
        raytracing.Subtract (raytracing.Direction r) (raytracing.Scale normal reflect) in
      let direction := fst (raytracing.Normalize direction) in
      let r := {| raytracing.Position := intersection;
                  raytracing.Direction := direction |} in
      let reflected :=
        if (remainingDepth >? 0)%Z then
          match calls with
          | O => None
          | S calls =>
              TraceRay calls s r (lightStrength * raytracing.Material.Reflectance material)
                (remainingDepth - 1) lighting
          end
        else Some (Returns raytracing.black) in
      match reflected with
      | None => None
      | Some Panics => Some Panics
      | Some (Returns reflectedColor) =>
          Some (Returns
            {| raytracing.Red := raytracing.Red color + raytracing.Red reflectedColor;
               raytracing.Green := raytracing.Green color + raytracing.Green reflectedColor;
               raytracing.Blue := raytracing.Blue color + raytracing.Blue reflectedColor |})
      end
    end
    end
    end.

End scene.

(* ================================================================== *)
(** * internal/camera *)
(* ================================================================== *)

Module camera.

Import Float64.
Local Open Scope float_scope.

Abbreviation Vector := raytracing.Vector.
Abbreviation Ray := raytracing.Ray.
Abbreviation Color := raytracing.Color.

(** [Scope]; the pointer fields may be [nil]. *)
Record Scope := {
  Position : Vector;
  Target : option Vector;
  Roll : float64;
  Right : option Vector;
  Up : option Vector;
  Forward : option Vector }.

(** The [Lens] interface, as far as rendering uses it. *)
Record Lens := {
  generateLightRay : float64 -> float64 -> Scope -> Ray;
  GetLensName : string }.

(** [color.RGBA] and the pixel buffer [*image.RGBA] over the rectangle
    [(0,0)-(width,height)]. *)
Record RGBA := { R : Z; G : Z; B : Z; A : Z }.

Record Image := {
  width : Z;
  height : Z;
  At : Z -> Z -> RGBA }.

(** [image.NewRGBA]: every pixel is zero. *)
Definition NewRGBA (w h : Z) : Image :=
  {| width := w; height := h; At := fun _ _ => {| R := 0; G := 0; B := 0; A := 0 |} |}.

(** The method [Set] of the buffer: a point outside the rectangle is ignored. *)
Definition Set_ (p : Image) (x y : Z) (c : RGBA) : Image :=
  if ((0 <=? x) && (x <? width p) && (0 <=? y) && (y <? height p))%Z
  then {| width := width p; height := height p;
          At := fun x' y' => if ((x' =? x) && (y' =? y))%Z then c else At p x' y' |}
  else p.

(** [Camera] as the sample loops read it: [AntiAliasingFactor] is the
    value behind the pointer, which [UnmarshalJSON] always sets. *)
Record Camera := {
  imageWidth : Z;
  imageHeight : Z;
  output : option Image;
  AntiAliasingFactor : Z;
  lens : Lens;
  scope : Scope }.

(** [for i := 0; i < n; i++ { body }] over a state. *)
Definition forRange {S : Type} (n : Z) (body : Z -> S -> S) (s : S) : S :=
  fold_left (fun s i => body (Z.of_nat i) s) (seq 0 (Z.to_nat n)) s.

(** The two inner loops of [Render]: the rays of the pixel
    [(pixelX, pixelY)]. *)
Definition pixelRays (c : Camera) (pixelX pixelY : Z) : list Ray :=
  let antiAliasingIncrement := 1.0 / of_int (AntiAliasingFactor c) in
  forRange (AntiAliasingFactor c) (fun i rays =>
    forRange (AntiAliasingFactor c) (fun j rays =>
      let pixelX' := (of_int pixelX + of_int i * antiAliasingIncrement)
                     / of_int (imageWidth c) in
      let pixelY' := (of_int pixelY + of_int j * antiAliasingIncrement)
                     / of_int (imageHeight c) in
      let screenX := 2.0 * pixelX' - 1.0 in
      let screenY := -2.0 * pixelY' + 1.0 in
      let ray := generateLightRay (lens c) screenX screenY (scope c) in
      rays ++ [ray]) rays) [].

Section Rendering.

(** [s.TraceRay] as [camera.go] calls it, with a ray, a light strength and
    a depth. *)
Variable TraceRay : Ray -> float64 -> Z -> Color.

(** The result of a conversion to [uint8] that does not fit. *)
Variable overflow : float64 -> Z.

(** The loop of [renderRays] over the rays. *)
Definition traceAll (rays : list Ray) (maxRayReflections : Z) : list Color :=
  fold_left (fun colors ray => colors ++ [TraceRay ray 1.0 maxRayReflections]) rays [].

(** The three channel values of [renderRays] before the conversion to
    [uint8]. *)
Definition channels (colors : list Color) : float64 * float64 * float64 :=
  let pixelColor := raytracing.AverageColors colors in
  let red := Min (raytracing.Red pixelColor * 255.0) 255.0 in
  let green := Min (raytracing.Green pixelColor * 255.0) 255.0 in
  let blue := Min (raytracing.Blue pixelColor * 255.0) 255.0 in
  (red, green, blue).

(** [renderRays] on the pixel buffer [out]: the work of one pixel.  The
    wait group and the semaphore only schedule that work. *)
Definition renderRays (out : Image) (rays : list Ray) (pixelX pixelY : Z)
    (maxRayReflections : Z) : Image :=
  let colors := traceAll rays maxRayReflections in
  let '(red, green, blue) := channels colors in
  Set_ out pixelX pixelY
    {| R := uint8 overflow red; G := uint8 overflow green; B := uint8 overflow blue;
       A := 255 |}.

End Rendering.

End camera.

(* ================================================================== *)
(** * pkg/raytracing: rotation *)
(* ================================================================== *)

Module rotation.

Import Float64.
Local Open Scope float_scope.

Abbreviation Vector := raytracing.Vector.
Abbreviation outcome := scene.outcome.

(** [math.Pi] as a [float64]. *)
Definition Pi : float64 := 0x1.921fb54442d18p+1.

(** [matrix[i][j]] of a [[][]float64]; [None] is the run-time panic of an
    index out of range. *)
Definition entry (matrix : list (list float64)) (i j : nat) : option float64 :=
  match nth_error matrix i with
  | Some row => nth_error row j
  | None => None
  end.

(** One component of [Multiply]: row [i] of the matrix times the vector. *)
Definition row (matrix : list (list float64)) (i : nat) (vector : Vector)
    : option float64 :=
  match entry matrix i 0, entry matrix i 1, entry matrix i 2 with
  | Some a, Some b, Some c =>
      Some (a * raytracing.X vector + b * raytracing.Y vector + c * raytracing.Z vector)
  | _, _, _ => None
  end.

Definition Multiply (matrix : list (list float64)) (vector : Vector) : outcome Vector :=
  match row matrix 0 vector, row matrix 1 vector, row matrix 2 vector with
  | Some x, Some y, Some z =>
      scene.Returns {| raytracing.X := x; raytracing.Y := y; raytracing.Z := z |}
  | _, _, _ => scene.Panics
  end.

Section Trigonometry.

(** [math.Cos] and [math.Sin] are not part of the repository; the
    rotation is stated for any functions in their place. *)
Variables Cos Sin : float64 -> float64.

Definition rotationMatrix (angle : float64) (axis : Vector) : list (list float64) :=
  let ax := raytracing.X axis in
  let ay := raytracing.Y axis in
  let az := raytracing.Z axis in
  [ [ Cos angle + ax * ax * (1 - Cos angle);
      ax * ay * (1 - Cos angle) - az * Sin angle;
      ax * az * (1 - Cos angle) + ay * Sin angle ];
    [ ay * ax * (1 - Cos angle) + az * Sin angle;
      Cos angle + ay * ay * (1 - Cos angle);
      ay * az * (1 - Cos angle) - ax * Sin angle ];
    [ az * ax * (1 - Cos angle) - ay * Sin angle;
      az * ay * (1 - Cos angle) + ax * Sin angle;
      Cos angle + az * az * (1 - Cos angle) ] ].

(** [Rotate] returns the vector and the error ([None] is [nil]). *)
Definition Rotate (v : Vector) (degrees : float64) (axis : Vector)
    : outcome (Vector * option string) :=
  let '(axis, ok) := raytracing.Normalize axis in
  if negb ok then
    scene.Returns
      ({| raytracing.X := 0; raytracing.Y := 0; raytracing.Z := 0 |},
       Some "the zero vector cannot be used as an axis of rotation"%string)
  else
    let angle := degrees / 180.0 * Pi in
    match Multiply (rotationMatrix angle axis) v with
    | scene.Returns product => scene.Returns (product, None)
    | scene.Panics => scene.Panics
    end.

End Trigonometry.

End rotation.

(* ================================================================== *)
(** * pkg/raytracing/object: the triangle *)
(* ================================================================== *)

Module Triangle.

Import Float64.
Local Open Scope float_scope.

Abbreviation Vector := raytracing.Vector.
Abbreviation Ray := raytracing.Ray.

(** [Triangle] is not registered in [objectFactoryMap], and its
    [SurfaceNormal] takes a ray, so it is not among the [Object]s of a
    scene. *)
Record t := {
  Material : option BinNums.Z;
  normal : Vector;
  edge1 : Vector;
  edge2 : Vector;
  A : Vector;
  B : Vector;
  C : Vector }.

(** [Triangle.Normalize]. *)
Definition Normalize (tr : t) : t :=
  {| Material := Material tr;
     normal := fst (raytracing.Normalize (normal tr));
     edge1 := edge1 tr;
     edge2 := edge2 tr;
     A := A tr; B := B tr; C := C tr |}.

(** [triangleFactory], from the decoded triangle on. *)
Definition triangleFactory (obj : t) : t :=
  let edge1 := raytracing.Subtract (B obj) (A obj) in
  let edge2 := raytracing.Subtract (C obj) (A obj) in
  Normalize
    {| Material := Material obj;
       normal := raytracing.Cross edge1 edge2;
       edge1 := edge1;
       edge2 := edge2;
       A := A obj; B := B obj; C := C obj |}.

Definition Intersect (tr : t) (r : Ray) (maxRange : float64) : bool * float64 :=
  let h := raytracing.Cross (raytracing.Direction r) (edge2 tr) in
  let det := raytracing.Dot (edge1 tr) h in
  if (det <? 1e-8) && (-1e-8 <? det) then (false, maxRange)
  else
    let f := 1.0 / det in
    let transform := raytracing.Subtract (raytracing.Position r) (A tr) in
    let u := raytracing.Dot transform h * f in
    if (u <? 0.0) || (1.0 <? u) then (false, maxRange)
    else
      let q := raytracing.Cross transform (edge1 tr) in
      let v := raytracing.Dot (raytracing.Direction r) q * f in
      if (v <? 0.0) || (1.0 <? u + v) then (false, maxRange)
      else
        let t := raytracing.Dot (edge2 tr) q * f in
        if (1e-4 <? t) && (t <? maxRange) then (true, t)
        else (false, maxRange).

Definition SurfaceNormal (tr : t) (r : Ray) : Vector :=
  if raytracing.Dot (raytracing.Direction r) (normal tr) <? 0.0 then normal tr
  else raytracing.Negative (normal tr).

End Triangle.

(* ================================================================== *)
(** * internal/camera: the scope and the lenses *)
(* ================================================================== *)

Module scope.

Import Float64.
Local Open Scope float_scope.

Abbreviation Vector := raytracing.Vector.
Abbreviation Scope := camera.Scope.
Abbreviation outcome := scene.outcome.

(** Reading through a pointer: [nil] is the run-time panic. *)
Definition deref {T : Type} (p : option T) : outcome T :=
  match p with
  | Some v => scene.Returns v
  | None => scene.Panics
  end.

Definition GetUp (s : Scope) : outcome Vector := deref (camera.Up s).
Definition GetRight (s : Scope) : outcome Vector := deref (camera.Right s).
Definition GetForward (s : Scope) : outcome Vector := deref (camera.Forward s).

(** The scope with its three basis pointers set. *)
Definition withBasis (s : Scope) (right up forward : option Vector) : Scope :=
  {| camera.Position := camera.Position s;
     camera.Target := camera.Target s;
     camera.Roll := camera.Roll s;
     camera.Right := right;
     camera.Up := up;
     camera.Forward := forward |}.

(** The second half of [Initialize]: the three vectors are normalized in
    the order right, up, forward.  [aliased] tells whether the pointers of
    the scope point at the local variables (they do after the first half
    has set them from a target), in which case an assignment to a local is
    seen through the scope at once; otherwise the scope changes only at the
    end. *)
Definition normalizeBasis (aliased : bool) (s : Scope) (r u f : Vector)
    : Scope * option string :=
  let seen (right up forward : Vector) :=
    if aliased then withBasis s (Some right) (Some up) (Some forward) else s in
  let right := fst (raytracing.Normalize r) in
  if negb (snd (raytracing.Normalize r)) then
    (seen right u f, Some "vector 'right' is a zero vector"%string)
  else
    let up := fst (raytracing.Normalize u) in
    if negb (snd (raytracing.Normalize u)) then
      (seen right up f, Some "vector 'up' is a zero vector"%string)
    else
      let forward := fst (raytracing.Normalize f) in
      if negb (snd (raytracing.Normalize f)) then
        (seen right up forward, Some "vector 'forward' is a zero vector"%string)
      else (withBasis s (Some right) (Some up) (Some forward), None).

Section Trigonometry.

Variables Cos Sin : float64 -> float64.

(** [Scope.Initialize] works on the scope in place; the embedding returns
    the scope it leaves behind and the error. *)
Definition Initialize (s : Scope) : outcome (Scope * option string) :=
  match camera.Target s with
  | Some target =>
      let '(forward, ok) :=
        raytracing.Normalize (raytracing.Subtract target (camera.Position s)) in
      if negb ok then scene.Returns (s, Some "target and position are the same"%string)
      else
        let vertical :=
          fst (raytracing.Normalize
                 {| raytracing.X := 0; raytracing.Y := 1; raytracing.Z := 0 |}) in
        let right := raytracing.Cross forward vertical in
        let up := raytracing.Cross right forward in
        match rotation.Rotate Cos Sin up (- camera.Roll s) forward with
        | scene.Panics => scene.Panics
        | scene.Returns (_, Some err) =>
            scene.Returns (s, Some ("scope rotation failed: " ++ err)%string)
        | scene.Returns (up, None) =>
            let right := raytracing.Cross forward up in
            scene.Returns (normalizeBasis true s right up forward)
        end
  | None =>
      match camera.Right s with
      | None => scene.Panics
      | Some r =>
      if negb (snd (raytracing.Normalize r)) then
        scene.Returns (s, Some "vector 'right' is a zero vector"%string)
      else
      match camera.Up s with
      | None => scene.Panics
      | Some up =>
      if negb (snd (raytracing.Normalize up)) then
        scene.Returns (s, Some "vector 'up' is a zero vector"%string)
      else
      match camera.Forward s with
      | None => scene.Panics
      | Some forward => scene.Returns (normalizeBasis false s r up forward)
      end
      end
      end
  end.

End Trigonometry.

End scope.

Module lens.

Import Float64.
Local Open Scope float_scope.

Abbreviation Vector := raytracing.Vector.
Abbreviation Ray := raytracing.Ray.
Abbreviation Scope := camera.Scope.
Abbreviation outcome := scene.outcome.

(** Sequencing of calls that may panic. *)
Definition bind {T U : Type} (x : outcome T) (k : T -> outcome U) : outcome U :=
  match x with
  | scene.Returns v => k v
  | scene.Panics => scene.Panics
  end.

(** [GetLensName] of the embedded [*namedLens]. *)
Definition GetLensName (namedLens : option string) : outcome string :=
  scope.deref namedLens.

Module ViewPort.
Record t := { ViewWidth : float64; viewHeight : float64 }.

Definition setAspectRatio (v : t) (ratio : float64) : t * option string :=
  ({| ViewWidth := ViewWidth v; viewHeight := ViewWidth v / ratio |}, None).
End ViewPort.

(** [OrthographicLens] embeds [*ViewPort] and [*namedLens]. *)
Module OrthographicLens.
Record t := { ViewPort : option ViewPort.t; namedLens : option string }.

Definition setAspectRatio (l : t) (ratio : float64) : outcome (t * option string) :=
  bind (scope.deref (ViewPort l)) (fun v =>
    let '(v, err) := ViewPort.setAspectRatio v ratio in
    scene.Returns ({| ViewPort := Some v; namedLens := namedLens l |}, err)).

Definition generateLightRay (l : t) (screenX screenY : float64) (s : Scope)
    : outcome Ray :=
  bind (scope.GetRight s) (fun right =>
  bind (scope.deref (ViewPort l)) (fun v =>
  bind (scope.GetUp s) (fun up =>
  bind (scope.GetForward s) (fun forward =>
    let horizontal := raytracing.Scale right (screenX * ViewPort.ViewWidth v * 0.5) in
    let vertical := raytracing.Scale up (screenY * ViewPort.viewHeight v * 0.5) in
    scene.Returns
      {| raytracing.Position :=
           raytracing.Add (raytracing.Add (camera.Position s) horizontal) vertical;
         raytracing.Direction := forward |})))).
End OrthographicLens.

Module FisheyeLens.
Record t := { HFOV : float64; VFOV : float64; namedLens : option string }.

Definition setAspectRatio (l : t) (ratio : float64) : t * option string :=
  ({| HFOV := HFOV l; VFOV := HFOV l / ratio; namedLens := namedLens l |}, None).

Section Trigonometry.

Variables Cos Sin : float64 -> float64.

(** The errors of the two rotations are dropped, as in the source. *)
Definition generateLightRay (l : t) (screenX screenY : float64) (s : Scope)
    : outcome Ray :=
  let horizontalAngle := - screenX * HFOV l / 2.0 in
  let verticalAngle := screenY * VFOV l / 2.0 in
  bind (scope.GetForward s) (fun direction =>
  bind (scope.GetRight s) (fun right =>
  bind (rotation.Rotate Cos Sin direction verticalAngle right) (fun rotated =>
  let direction := fst rotated in
  bind (scope.GetUp s) (fun up =>
  bind (rotation.Rotate Cos Sin direction horizontalAngle up) (fun rotated =>
  let direction := fst rotated in
  let direction := fst (raytracing.Normalize direction) in
  scene.Returns
    {| raytracing.Position := camera.Position s;
       raytracing.Direction := direction |}))))).

End Trigonometry.
End FisheyeLens.

Module PerspectiveLens.
(** The two pointer fields may be [nil]. *)
Record t := {
  OpticalRadius : option float64;
  FocalLength : option float64;
  HFOV : float64;
  ViewWidth : float64;
  viewHeight : float64;
  namedLens : option string }.

(** The last assignment of [setAspectRatio]. *)
Definition withHeight (l : t) (ratio : float64) : t :=
  {| OpticalRadius := OpticalRadius l;
     FocalLength := FocalLength l;
     HFOV := HFOV l;
     ViewWidth := ViewWidth l;
     viewHeight := ViewWidth l / ratio;
     namedLens := namedLens l |}.

Section Trigonometry.

Variables Cos Sin : float64 -> float64.

Definition setAspectRatio (l : t) (ratio : float64) : t * option string :=
  if negb (HFOV l =? 0.0) then
    let hfovRadian := HFOV l / 180.0 * rotation.Pi in
    let withWidth (opticalRadius focalLength : float64) :=
      {| OpticalRadius := Some opticalRadius;
         FocalLength := Some focalLength;
         HFOV := HFOV l;
         ViewWidth := Sin (hfovRadian * 0.5) * opticalRadius * 2.0;
         viewHeight := viewHeight l;
         namedLens := namedLens l |} in
    match FocalLength l, OpticalRadius l with
    | Some focalLength, _ =>
        (withHeight
           (withWidth ((1.0 / Cos (hfovRadian * 0.5)) * focalLength) focalLength) ratio,
         None)
    | None, Some opticalRadius =>
        (withHeight
           (withWidth opticalRadius (Cos (hfovRadian * 0.5) * opticalRadius)) ratio,
         None)
    | None, None =>
        (l, Some ("with persepctive lens, at least one of focalLength or "
                  ++ "opticalRadius must be specified")%string)
    end
  else
    match FocalLength l with
    | None =>
        (l, Some "when using perspective lens with viewWidth, focalLength must be specified"%string)
    | Some _ => (withHeight l ratio, None)
    end.

End Trigonometry.

Definition generateLightRay (l : t) (screenX screenY : float64) (s : Scope)
    : outcome Ray :=
  bind (scope.GetForward s) (fun forward =>
  bind (scope.deref (FocalLength l)) (fun focalLength =>
  let direction := raytracing.Scale forward focalLength in
  bind (scope.GetRight s) (fun right =>
  let direction :=
    raytracing.Add direction (raytracing.Scale right (screenX * ViewWidth l * 0.5)) in
  bind (scope.GetUp s) (fun up =>
  let direction :=
    raytracing.Add direction (raytracing.Scale up (screenY * viewHeight l * 0.5)) in
  let direction := fst (raytracing.Normalize direction) in
  scene.Returns
    {| raytracing.Position := camera.Position s;
       raytracing.Direction := direction |})))).
End PerspectiveLens.

End lens.

(* ================================================================== *)
(** * Facts about float64 *)
(* ================================================================== *)

Module Float64Facts.

Import Float64.
Local Open Scope float_scope.

(** ** The order of binary64 values

    [fcmp] is the comparison of the two values as the IEEE specification
    sees them: [None] when one of them is NaN. *)

Definition fcmp (x y : float64) : option comparison :=
  SFcompare (Prim2SF x) (Prim2SF y).

Lemma ltb_fcmp x y : (x <? y) = true <-> fcmp x y = Some Lt.
Proof.
  rewrite ltb_spec. unfold SFltb, fcmp.
  destruct (SFcompare _ _) as [[ | | ] | ]; split; congruence.
Qed.

Lemma leb_fcmp x y : (x <=? y) = true <-> fcmp x y = Some Lt \/ fcmp x y = Some Eq.
Proof.
  rewrite leb_spec. unfold SFleb, fcmp.
  destruct (SFcompare _ _) as [[ | | ] | ]; split; intros; try tauto;
    try congruence; destruct H; congruence.
Qed.

Lemma eqb_fcmp x y : (x =? y) = true <-> fcmp x y = Some Eq.
Proof.
  rewrite eqb_spec. unfold SFeqb, fcmp.
  destruct (SFcompare _ _) as [[ | | ] | ]; split; congruence.
Qed.

Lemma SFcompare_antisym a b :
  SFcompare b a = option_map CompOpp (SFcompare a b).
Proof.
  destruct a as [sa | sa | | sa ma ea], b as [sb | sb | | sb mb eb];
    try destruct sa; try destruct sb; cbn; try reflexivity;
    change (Pos.compare_cont Eq mb ma) with (Pos.compare mb ma);
    change (Pos.compare_cont Eq ma mb) with (Pos.compare ma mb);
    rewrite (Z.compare_antisym ea eb), (Pos.compare_antisym ma mb);
    destruct (Z.compare ea eb), (Pos.compare ma mb); reflexivity.
Qed.

Lemma fcmp_antisym x y : fcmp y x = option_map CompOpp (fcmp x y).
Proof. apply SFcompare_antisym. Qed.

(** The non-strict order on specification floats. *)
Definition below (c : option comparison) : Prop := c = Some Lt \/ c = Some Eq.

Ltac order_cases :=
  repeat match goal with
  | H : below _ |- _ => destruct H
  | H : Some _ = Some _ |- _ => injection H as H
  | H : context [Pos.compare_cont Eq ?p ?q] |- _ =>
      change (Pos.compare_cont Eq p q) with (Pos.compare p q) in H
  | |- context [Pos.compare_cont Eq ?p ?q] =>
      change (Pos.compare_cont Eq p q) with (Pos.compare p q)
  | H : context [Z.compare ?a ?b] |- _ =>
      destruct (Z.compare_spec a b)
  | H : context [Pos.compare ?a ?b] |- _ =>
      destruct (Pos.compare_spec a b)
  | |- context [Z.compare ?a ?b] => destruct (Z.compare_spec a b)
  | |- context [Pos.compare ?a ?b] => destruct (Pos.compare_spec a b)
  end.

Lemma SFcompare_trans a b c :
  below (SFcompare a b) -> below (SFcompare b c) ->
  below (SFcompare a c) /\
  (SFcompare a c = Some Eq -> SFcompare a b = Some Eq /\ SFcompare b c = Some Eq).
Proof.
  unfold below.
  destruct a as [sa | sa | | sa ma ea], b as [sb | sb | | sb mb eb],
    c as [sc | sc | | sc mc ec];
    try destruct sa; try destruct sb; try destruct sc; cbn;
    intros [H1 | H1] [H2 | H2]; try discriminate;
    try (split; [ tauto | intros; split; (reflexivity || discriminate) ]);
    order_cases; subst; cbn in *;
    try discriminate; try lia;
    split; try tauto; try (intros; discriminate);
    try (intros; split; reflexivity).
Qed.

Lemma ltb_trans x y z : (x <? y) = true -> (y <? z) = true -> (x <? z) = true.
Proof.
  rewrite !ltb_fcmp. unfold fcmp. intros H1 H2.
  destruct (SFcompare_trans (Prim2SF x) (Prim2SF y) (Prim2SF z)) as [[H | H] E];
    try (left; assumption); try assumption.
  destruct (E H) as [E1 _]. congruence.
Qed.

Lemma ltb_leb_trans x y z : (x <? y) = true -> (y <=? z) = true -> (x <? z) = true.
Proof.
  rewrite !ltb_fcmp, leb_fcmp. unfold fcmp. intros H1 H2.
  destruct (SFcompare_trans (Prim2SF x) (Prim2SF y) (Prim2SF z)) as [[H | H] E];
    try (left; assumption); try assumption.
  destruct (E H) as [E1 _]. congruence.
Qed.

Lemma leb_ltb_trans x y z : (x <=? y) = true -> (y <? z) = true -> (x <? z) = true.
Proof.
  rewrite !ltb_fcmp, leb_fcmp. unfold fcmp. intros H1 H2.
  destruct (SFcompare_trans (Prim2SF x) (Prim2SF y) (Prim2SF z)) as [[H | H] E];
    try (left; assumption); try assumption.
  destruct (E H) as [_ E2]. congruence.
Qed.

Lemma leb_trans x y z : (x <=? y) = true -> (y <=? z) = true -> (x <=? z) = true.
Proof.
  rewrite !leb_fcmp. unfold fcmp. intros H1 H2.
  apply (SFcompare_trans (Prim2SF x) (Prim2SF y) (Prim2SF z)); assumption.
Qed.

Lemma ltb_leb x y : (x <? y) = true -> (x <=? y) = true.
Proof. rewrite ltb_fcmp, leb_fcmp. auto. Qed.

Lemma ltb_irrefl x : (x <? x) = false.
Proof.
  destruct (x <? x) eqn:E; [ | reflexivity ].
  apply ltb_fcmp in E. pose proof (fcmp_antisym x x) as A.
  rewrite E in A. discriminate.
Qed.

Lemma ltb_asym x y : (x <? y) = true -> (y <? x) = false.
Proof.
  intros H. destruct (y <? x) eqn:E; [ | reflexivity ].
  rewrite <- (ltb_irrefl x). symmetry. eapply ltb_trans; eassumption.
Qed.

(** Two values that are both comparable with something are not NaN, so
    they are comparable with each other. *)
Lemma SFcompare_defined a b c d :
  SFcompare a b <> None -> SFcompare c d <> None -> SFcompare a c <> None.
Proof.
  destruct a as [ [ | ] | [ | ] | | [ | ] ? ? ], b as [ [ | ] | [ | ] | | [ | ] ? ? ];
    cbn; try congruence;
    destruct c as [ [ | ] | [ | ] | | [ | ] ? ? ], d as [ [ | ] | [ | ] | | [ | ] ? ? ];
    cbn; congruence.
Qed.

(** When [y] is not below [x] although both are numbers, [x <= y]. *)
Lemma not_ltb_leb x y hx hy :
  (x <? hx) = true -> (y <? hy) = true -> (y <? x) = false -> (x <=? y) = true.
Proof.
  intros Hx Hy N. apply ltb_fcmp in Hx, Hy. apply leb_fcmp.
  assert (D : fcmp x y <> None).
  { unfold fcmp in *.
    apply (SFcompare_defined (Prim2SF x) (Prim2SF hx) (Prim2SF y) (Prim2SF hy)).
    - rewrite Hx. discriminate.
    - rewrite Hy. discriminate. }
  destruct (fcmp x y) as [[ | | ] | ] eqn:E; auto; try congruence.
  assert (L : (y <? x) = true).
  { apply ltb_fcmp. rewrite fcmp_antisym, E. reflexivity. }
  congruence.
Qed.

(** A value rounded with a positive sign is not below zero. *)
Lemma binary_round_aux_nonneg mx ex lx :
  SFltb (binary_round_aux prec emax false mx ex lx) (S754_zero false) = false.
Proof.
  unfold binary_round_aux.
  destruct (shr_fexp prec emax mx ex lx) as [mrs e'].
  destruct (shr_fexp prec emax _ e' loc_Exact) as [mrs' e''].
  destruct (shr_m mrs'); [ reflexivity | | reflexivity ].
  destruct (Z.leb e'' (Z.sub emax prec)); reflexivity.
Qed.

(** [math.Sqrt] never returns a value below zero. *)
Lemma Sqrt_not_negative x : (Sqrt x <? 0) = false.
Proof.
  unfold Sqrt. rewrite ltb_spec, sqrt_spec.
  change (Prim2SF 0) with (S754_zero false).
  unfold SF64sqrt, SFsqrt.
  destruct (Prim2SF x) as [ s | [ | ] | | [ | ] m e ]; try reflexivity.
  destruct (SFsqrt_core_binary prec emax (Z.pos m) e) as [[mz ez] lz].
  apply binary_round_aux_nonneg.
Qed.

(** Below or equal without being below is being equal. *)
Lemma leb_not_ltb_eqb x y : (x <=? y) = true -> (x <? y) = false -> (x =? y) = true.
Proof.
  intros L N. apply leb_fcmp in L. apply eqb_fcmp.
  destruct L as [L | L]; [ | assumption ].
  apply ltb_fcmp in L. congruence.
Qed.

Lemma eqb_leb x y : (x =? y) = true -> (x <=? y) = true.
Proof. rewrite eqb_fcmp, leb_fcmp. auto. Qed.

Lemma eqb_sym x y : (x =? y) = (y =? x).
Proof.
  rewrite !eqb_spec. unfold SFeqb. rewrite (SFcompare_antisym (Prim2SF x) (Prim2SF y)).
  destruct (SFcompare (Prim2SF x) (Prim2SF y)) as [[ | | ] | ]; reflexivity.
Qed.

Lemma leb_not_ltb x y : (x <=? y) = true -> (y <? x) = false.
Proof.
  intros L. destruct (y <? x) eqn:E; [ | reflexivity ].
  rewrite <- (ltb_irrefl x). symmetry. eapply leb_ltb_trans; eassumption.
Qed.

(** A number below something is below or equal to itself. *)
Lemma leb_refl_of_ltb x hx : (x <? hx) = true -> (x <=? x) = true.
Proof.
  intros H. eapply not_ltb_leb; try eassumption. apply ltb_irrefl.
Qed.

(** Nothing that fails to be below [+Inf] is below anything. *)
Lemma not_ltb_infinity x m : (x <? infinity) = false -> (x <? m) = false.
Proof.
  rewrite !ltb_spec. change (Prim2SF infinity) with (S754_infinity false).
  unfold SFltb.
  destruct (Prim2SF x) as [ [ | ] | [ | ] | | [ | ] ? ? ]; cbn; try discriminate;
    intros _; destruct (Prim2SF m) as [ [ | ] | [ | ] | | [ | ] ? ? ]; reflexivity.
Qed.

(** [number x]: [x] is not NaN. *)
Definition number (x : float64) : Prop := (x =? x) = true.

Lemma SFcompare_refl a : a <> S754_nan -> SFcompare a a = Some Eq.
Proof.
  destruct a as [ [ | ] | [ | ] | | [ | ] m e ]; cbn; try congruence; intros _;
    change (Pos.compare_cont Eq m m) with (Pos.compare m m);
    rewrite Z.compare_refl, Pos.compare_refl; reflexivity.
Qed.

Lemma number_of_fcmp x y c : fcmp x y = Some c -> number x /\ number y.
Proof.
  unfold number, fcmp. intros H. rewrite !eqb_spec. unfold SFeqb.
  rewrite !SFcompare_refl; [ split; reflexivity | | ];
    intros N; rewrite N in H; cbn in H;
    try discriminate; destruct (Prim2SF x); discriminate.
Qed.

Lemma ltb_number x y : (x <? y) = true -> number x /\ number y.
Proof. intros H. apply ltb_fcmp in H. eapply number_of_fcmp; eassumption. Qed.

Lemma number_fcmp x y : number x -> number y -> fcmp x y <> None.
Proof.
  unfold number. rewrite !eqb_fcmp. unfold fcmp.
  intros Hx Hy.
  apply (SFcompare_defined (Prim2SF x) (Prim2SF x) (Prim2SF y) (Prim2SF y));
    congruence.
Qed.

(** The order is total on numbers. *)
Lemma number_not_ltb_leb x y :
  number x -> number y -> (y <? x) = false -> (x <=? y) = true.
Proof.
  intros Hx Hy N. apply leb_fcmp.
  pose proof (number_fcmp x y Hx Hy) as D.
  destruct (fcmp x y) as [[ | | ] | ] eqn:E; auto; try congruence.
  assert (L : (y <? x) = true).
  { apply ltb_fcmp. rewrite fcmp_antisym, E. reflexivity. }
  congruence.
Qed.

Lemma number_leb_refl x : number x -> (x <=? x) = true.
Proof. intros H. apply eqb_leb. exact H. Qed.

(** [math.Max(0, x)] is not above zero when [x] is not. *)
Lemma Max_zero_nonpositive x : (x <=? 0) = true -> (Max 0 x <=? 0) = true.
Proof.
  intros L. unfold Max.
  destruct (IsInf 0 1 || IsInf x 1) eqn:I.
  { exfalso. unfold IsInf in I. cbn in I.
    change (MaxFloat64 <? 0) with false in I. cbn in I.
    rewrite orb_false_r in I.
    pose proof (ltb_leb_trans _ _ _ I L) as C. vm_compute in C. discriminate. }
  destruct (IsNaN 0 || IsNaN x) eqn:N.
  { exfalso. unfold IsNaN in N. change (0 =? 0) with true in N. cbn in N.
    apply negb_true_iff in N.
    pose proof (leb_trans x 0 x L) as T.
    assert (X : (x =? x) = true).
    { apply eqb_fcmp. apply leb_fcmp in L. unfold fcmp in *.
      change (Prim2SF 0) with (S754_zero false) in L.
      destruct (Prim2SF x) as [ [ | ] | [ | ] | | [ | ] ? ? ]; cbn in *;
        try reflexivity; try (destruct L; discriminate);
        change (Pos.compare_cont Eq m m) with (Pos.compare m m);
        rewrite Z.compare_refl, Pos.compare_refl; reflexivity. }
    congruence. }
  change (0 =? 0) with true. cbn [andb].
  destruct (0 =? x) eqn:E.
  { destruct (Signbit 0); [ assumption | reflexivity ]. }
  destruct (x <? 0) eqn:Lt; [ reflexivity | ].
  rewrite eqb_sym in E. rewrite (leb_not_ltb_eqb x 0 L Lt) in E. discriminate.
Qed.

(** [math.Min(x, 255)] is never above 255. *)
Lemma Min_255_bounded x : (255 <? Min x 255) = false.
Proof.
  unfold Min.
  destruct (IsInf x (-1) || IsInf 255 (-1)); [ reflexivity | ].
  destruct (IsNaN x || IsNaN 255); [ reflexivity | ].
  destruct ((x =? 0) && (x =? 255)) eqn:Z.
  { apply andb_true_iff in Z. destruct Z as [Z _].
    destruct (Signbit x); [ | reflexivity ].
    destruct (255 <? x) eqn:G; [ | reflexivity ].
    apply eqb_leb in Z. pose proof (ltb_leb_trans _ _ _ G Z) as C.
    vm_compute in C. discriminate. }
  destruct (x <? 255) eqn:L.
  - apply ltb_asym. assumption.
  - reflexivity.
Qed.

(** ** Conversion to uint8 *)

Lemma digits2_pos_bound (m : positive) : (Zpos m < 2 ^ Zpos (digits2_pos m))%Z.
Proof.
  induction m as [p IH | p IH | ]; cbn [digits2_pos];
    try rewrite Pos2Z.inj_succ, Z.pow_succ_r by lia; lia.
Qed.

(** Shifts that stay within a byte. *)
Lemma shiftr_byte (m k : positive) :
  (Z.pos m < 2 ^ 53)%Z -> (46 <= Z.pos k)%Z ->
  (Z.shiftr (Z.pos m) (Z.pos k) < 128)%Z.
Proof.
  intros M K. rewrite Z.shiftr_div_pow2 by (clear; lia).
  assert (Q : (2 ^ 46 <= 2 ^ Z.pos k)%Z).
  { apply Z.pow_le_mono_r; [ clear; lia | exact K ]. }
  set (p := (2 ^ Z.pos k)%Z) in *.
  change (2 ^ 46)%Z with 70368744177664%Z in Q.
  change (2 ^ 53)%Z with 9007199254740992%Z in M.
  apply Z.div_lt_upper_bound; [ clear - Q; lia | ].
  clear - M Q. lia.
Qed.

Lemma shiftr_255 (m : positive) :
  (Z.pos m <= 8972014882652160)%Z ->
  (Z.shiftr (Z.pos m) 45 <= 255)%Z.
Proof.
  intros M. rewrite Z.shiftr_div_pow2 by (clear; lia).
  change (2 ^ 45)%Z with 35184372088832%Z.
  apply Z.div_le_upper_bound; [ clear; lia | ].
  clear - M. lia.
Qed.

(** The conversion of a channel between 0 and 255 is fixed, and a byte. *)
Lemma uint8_defined x :
  (0 <=? x) = true -> (255 <? x) = false ->
  exists n, exact_uint8 x = Some n /\ (0 <= n <= 255)%Z.
Proof.
  rewrite leb_spec, ltb_spec. unfold exact_uint8, truncate.
  change (Prim2SF 0) with (S754_zero false).
  change (Prim2SF 255) with (S754_finite false 8972014882652160 (-45)).
  pose proof (Prim2SF_valid x) as V.
  destruct (Prim2SF x) as [ sg | [ | ] | | [ | ] m e ]; cbn; try discriminate.
  - intros _ _. exists 0%Z. split; [ reflexivity | clear; lia ].
  - intros _ H. cbn in V. unfold bounded, canonical_mantissa, fexp in V.
    apply andb_true_iff in V. destruct V as [V _]. apply Z.eqb_eq in V.
    pose proof (digits2_pos_bound m) as D.
    destruct e as [ | k | k ]; cbn in H; try discriminate.
    assert (B : (0 <= Z.shiftr (Z.pos m) (Z.pos k) <= 255)%Z).
    { split; [ apply Z.shiftr_nonneg; clear; lia | ].
      destruct (Pos.compare_spec 45 k) as [ E | Lt | Gt ]; cbn [CompOpp] in H.
      - subst k. apply shiftr_255.
        change (PosDef.Pos.compare_cont Eq 8972014882652160 m)
          with (Pos.compare 8972014882652160 m) in H.
        destruct (Pos.compare_spec 8972014882652160 m) as [Em | Lm | Gm];
          try discriminate.
        + rewrite <- Em. apply Z.le_refl.
        + apply Pos2Z.pos_le_pos, Pos.lt_le_incl. exact Gm.
      - apply Z.lt_le_incl, (Z.lt_le_trans _ 128); [ | clear; lia ].
        apply shiftr_byte.
        + eapply Z.lt_le_trans; [ exact D | ].
          apply Z.pow_le_mono_r; [ clear; lia | ].
          unfold prec, emin, emax in V. clear - V. lia.
        + apply Pos2Z.pos_lt_pos in Lt. clear - Lt. lia.
      - discriminate. }
    set (n := Z.shiftr (Z.pos m) (Z.pos k)) in *.
    change (PosDef.Pos.iter Z.div2 (Z.pos m) k) with n.
    exists n. destruct B as [B0 B1].
    apply Z.leb_le in B0, B1. rewrite B0, B1.
    split; [ reflexivity | apply Z.leb_le in B0, B1; split; assumption ].
Qed.

Lemma uint8_exact (overflow : float64 -> Z) x n :
  exact_uint8 x = Some n -> uint8 overflow x = n.
Proof. unfold uint8. intros ->. reflexivity. Qed.

End Float64Facts.

(* ================================================================== *)
(** * Properties of pkg/raytracing *)
(* ================================================================== *)

Module raytracing_spec.

Import Float64 Float64Facts.
Local Open Scope float_scope.

Abbreviation Vector := raytracing.Vector.
Abbreviation Color := raytracing.Color.
Abbreviation Light := raytracing.Light.
Abbreviation Material := raytracing.Material.

(** ** Normalize *)

Lemma Magnitude_not_negative (v : Vector) : (raytracing.Magnitude v <? 0) = false.
Proof. apply Sqrt_not_negative. Qed.

(** C6: the code breaks the claim on a vector whose squared length
    overflows.  For [(1e200, 0, 0)] the sum of the squares is [+Inf], and so
    is the computed magnitude; it is not zero, so [Normalize] reports
    success, but the factor [1 / magnitude] is 0 and the vector it returns
    is the zero vector: the magnitude of the result is 0, not 1, and
    [Normalize] itself refuses that result.  The same happens on every
    vector whose computed magnitude is [+Inf]: the guard lets it pass and
    the vector is scaled by 0. *)
Theorem Normalize_overflow_returns_zero_vector :
  let v := {| raytracing.X := 1e200; raytracing.Y := 0; raytracing.Z := 0 |} in
  raytracing.Magnitude v = infinity /\
  raytracing.Normalize v =
    ({| raytracing.X := 0; raytracing.Y := 0; raytracing.Z := 0 |}, true) /\
  raytracing.Magnitude (fst (raytracing.Normalize v)) = 0 /\
  snd (raytracing.Normalize (fst (raytracing.Normalize v))) = false /\
  (forall w : Vector,
     raytracing.Magnitude w = infinity ->
     raytracing.Normalize w = (raytracing.Scale w 0, true)).
Proof.
  cbv zeta. split; [ | split; [ | split; [ | split ] ] ]; try (vm_compute; reflexivity).
  intros w Overflow. unfold raytracing.Normalize. rewrite Overflow. reflexivity.
Qed.

(** ** PhongReflectance *)

(** The sum of a list of [float64], accumulated from zero in list order,
    as a loop [sum += x] does. *)
Definition fsum (l : list float64) : float64 := fold_left PrimFloat.add l 0.

Section PhongSpec.

Variable Pow : float64 -> float64 -> float64.
Variables (viewer position normal : Vector) (material : Material).

(** The unit vector from the surface point to the light, when there is
    one. *)
Definition lightVector (light : Light) : Vector :=
  fst (raytracing.Normalize
         (raytracing.Subtract (raytracing.Light.Position light) position)).

(** The light vector reflected about the normal, before and after its
    normalization. *)
Definition reflection (light : Light) : Vector :=
  raytracing.Subtract
    (raytracing.Scale normal (2.0 * raytracing.Dot (lightVector light) normal))
    (lightVector light).

Definition reflected (light : Light) : Vector :=
  fst (raytracing.Normalize (reflection light)).

(** A light is front-facing when the normal has a positive dot product
    with its direction. *)
Definition frontFacing (light : Light) : bool :=
  negb (raytracing.Dot normal
          (raytracing.Subtract (raytracing.Light.Position light) position) <=? 0.0).

(** A light is normalizable when its direction and the reflection of its
    direction both normalize. *)
Definition normalizable (light : Light) : bool :=
  snd (raytracing.Normalize
         (raytracing.Subtract (raytracing.Light.Position light) position))
  && snd (raytracing.Normalize (reflection light)).

(** The specular coefficient [max(0, R.V)^alpha], forced to zero. *)
Definition specCoef (light : Light) : float64 :=
  let specBase := Max 0.0 (raytracing.Dot (reflected light) viewer) in
  if specBase <=? 0.0 then 0.0
  else Pow specBase (raytracing.Material.Alpha material).

(** The diffuse and specular terms of one light, for one channel:
    [ch] reads the channel of a color. *)
Definition diffuseTerm (ch : Color -> float64) (light : Light) : float64 :=
  Max 0.0 (raytracing.Dot (lightVector light) normal)
  * ch (raytracing.Light.Diffuse light) * ch (raytracing.Material.Diffuse material).

Definition specularTerm (ch : Color -> float64) (light : Light) : float64 :=
  specCoef light
  * ch (raytracing.Light.Specular light) * ch (raytracing.Material.Specular material).

(** The model in the words of the specification, for one channel. *)
Definition phongChannel (ch : Color -> float64) (lights : list Light)
    (ambientLight : Color) : float64 :=
  fsum (map (fun light => diffuseTerm ch light + specularTerm ch light)
            (filter (fun light => frontFacing light && normalizable light) lights))
  + ch ambientLight * ch (raytracing.Material.Ambient material).

Lemma phongStep_lit (color : Color) (light : Light) :
  frontFacing light && normalizable light = true ->
  raytracing.phongStep Pow viewer position normal material color light =
  {| raytracing.Red := raytracing.Red color
       + (diffuseTerm raytracing.Red light + specularTerm raytracing.Red light);
     raytracing.Green := raytracing.Green color
       + (diffuseTerm raytracing.Green light + specularTerm raytracing.Green light);
     raytracing.Blue := raytracing.Blue color
       + (diffuseTerm raytracing.Blue light + specularTerm raytracing.Blue light) |}.
Proof.
  unfold frontFacing, normalizable, raytracing.phongStep.
  unfold diffuseTerm, specularTerm, specCoef, reflected, reflection, lightVector.
  intros H. apply andb_true_iff in H. destruct H as [F N].
  apply negb_true_iff in F. rewrite F.
  apply andb_true_iff in N. destruct N as [N1 N2].
  destruct (raytracing.Normalize
              (raytracing.Subtract (raytracing.Light.Position light) position))
    as [lightVec ok] eqn:E1.
  cbn [fst snd] in *. subst ok. cbn [negb].
  destruct (raytracing.Normalize
              (raytracing.Subtract
                 (raytracing.Scale normal (2.0 * raytracing.Dot lightVec normal))
                 lightVec)) as [refl ok] eqn:E2.
  cbn [fst snd] in *. subst ok. cbn [negb].
  cbn [raytracing.Red raytracing.Green raytracing.Blue].
  destruct (Max 0.0 (raytracing.Dot refl viewer) <=? 0.0); reflexivity.
Qed.

Lemma phongStep_unlit (color : Color) (light : Light) :
  frontFacing light && normalizable light = false ->
  raytracing.phongStep Pow viewer position normal material color light = color.
Proof.
  unfold frontFacing, normalizable, raytracing.phongStep, reflection, lightVector.
  intros H.
  destruct (raytracing.Dot normal
              (raytracing.Subtract (raytracing.Light.Position light) position) <=? 0.0);
    [ reflexivity | ].
  cbn [negb andb] in H.
  destruct (raytracing.Normalize
              (raytracing.Subtract (raytracing.Light.Position light) position))
    as [lightVec ok] eqn:E1.
  cbn [fst snd] in *. destruct ok; cbn [negb]; [ | reflexivity ].
  cbn [andb] in H.
  destruct (raytracing.Normalize
              (raytracing.Subtract
                 (raytracing.Scale normal (2.0 * raytracing.Dot lightVec normal))
                 lightVec)) as [refl ok] eqn:E2.
  cbn [snd] in H. subst ok. reflexivity.
Qed.

(** The loop of [PhongReflectance] accumulates, channel by channel, the
    terms of the lights that pass its three tests. *)
Lemma phong_loop (ch : Color -> float64) (lights : list Light) :
  (ch = raytracing.Red \/ ch = raytracing.Green \/ ch = raytracing.Blue) ->
  forall color : Color,
  ch (fold_left (raytracing.phongStep Pow viewer position normal material) lights color) =
  fold_left PrimFloat.add
    (map (fun light => diffuseTerm ch light + specularTerm ch light)
         (filter (fun light => frontFacing light && normalizable light) lights))
    (ch color).
Proof.
  intros Hch. induction lights as [ | light lights IH]; intros color; [ reflexivity | ].
  cbn [fold_left filter].
  destruct (frontFacing light && normalizable light) eqn:L.
  - rewrite IH, (phongStep_lit color light L). cbn [map fold_left].
    destruct Hch as [-> | [-> | ->]]; reflexivity.
  - rewrite IH, (phongStep_unlit color light L). reflexivity.
Qed.

End PhongSpec.

(** C5: for every light list, ambient color, viewer direction, position,
    normal and material, each channel of [PhongReflectance] is the sum,
    over the front-facing, normalizable lights in list order, of the
    diffuse term [max(0, L.N) * lightDiffuse * materialDiffuse] plus the
    specular term [specCoef * lightSpecular * materialSpecular], plus the
    ambient term [ambientLight * materialAmbient] added once; [specCoef]
    is [max(0, R.V)^alpha], and it is zero whenever [R.V <= 0]; with no
    light at all the result is the ambient term alone. *)
Theorem PhongReflectance_sum_of_terms
    (Pow : float64 -> float64 -> float64) (lights : list Light) (ambientLight : Color)
    (viewer position normal : Vector) (material : Material) :
  let phong :=
    raytracing.PhongReflectance Pow lights ambientLight viewer position normal material in
  let channel ch :=
    phongChannel Pow viewer position normal material ch lights ambientLight in
  (raytracing.Red phong = channel raytracing.Red /\
   raytracing.Green phong = channel raytracing.Green /\
   raytracing.Blue phong = channel raytracing.Blue) /\
  (forall light : Light,
     let RV := raytracing.Dot (reflected position normal light) viewer in
     ((RV <=? 0) = true -> specCoef Pow viewer position normal material light = 0) /\
     ((Max 0 RV <=? 0) = false ->
        specCoef Pow viewer position normal material light =
        Pow (Max 0 RV) (raytracing.Material.Alpha material))) /\
  (let none :=
     raytracing.PhongReflectance Pow [] ambientLight viewer position normal material in
   raytracing.Red none
     = 0 + raytracing.Red ambientLight * raytracing.Red (raytracing.Material.Ambient material) /\
   raytracing.Green none
     = 0 + raytracing.Green ambientLight
           * raytracing.Green (raytracing.Material.Ambient material) /\
   raytracing.Blue none
     = 0 + raytracing.Blue ambientLight
           * raytracing.Blue (raytracing.Material.Ambient material)).
Proof.
  cbv zeta. split; [ | split ].
  - unfold raytracing.PhongReflectance, phongChannel, fsum.
    cbn [raytracing.Red raytracing.Green raytracing.Blue].
    rewrite !phong_loop by auto. repeat split.
  - intros light. unfold specCoef. split.
    + intros H. rewrite (Max_zero_nonpositive _ H). reflexivity.
    + intros H. rewrite H. reflexivity.
  - repeat split.
Qed.

(** ** AverageColors *)

(** The loop of [AverageColors] sums each channel on its own. *)
Lemma addColor_loop (ch : Color -> float64) (colors : list Color) :
  (ch = raytracing.Red \/ ch = raytracing.Green \/ ch = raytracing.Blue) ->
  forall average : Color,
  ch (fold_left raytracing.addColor colors average) =
  fold_left PrimFloat.add (map ch colors) (ch average).
Proof.
  intros Hch. induction colors as [ | color colors IH]; intros average; [ reflexivity | ].
  cbn [fold_left map]. rewrite IH.
  destruct Hch as [-> | [-> | ->]]; reflexivity.
Qed.

(** The arithmetic mean of a channel over a list of colors. *)
Definition mean (ch : Color -> float64) (colors : list Color) : float64 :=
  fsum (map ch colors) / of_int (Z.of_nat (List.length colors)).

Lemma AverageColors_mean (colors : list Color) :
  raytracing.AverageColors colors =
  {| raytracing.Red := mean raytracing.Red colors;
     raytracing.Green := mean raytracing.Green colors;
     raytracing.Blue := mean raytracing.Blue colors |}.
Proof.
  unfold raytracing.AverageColors, mean, fsum.
  rewrite !addColor_loop by auto. reflexivity.
Qed.

End raytracing_spec.

(* ================================================================== *)
(** * Properties of pkg/raytracing/object *)
(* ================================================================== *)

Module object_spec.

Import Float64 Float64Facts.
Local Open Scope float_scope.

Abbreviation Ray := raytracing.Ray.
Abbreviation Object := object.Object.

(** ** The sphere *)

Section SphereQuadratic.

Variables (s : object.Sphere.t) (r : Ray).

(** The coefficients of [|O + tD - C|^2 = r^2] as a quadratic in [t]. *)
Definition quadA : float64 :=
  raytracing.Dot (raytracing.Direction r) (raytracing.Direction r).

Definition quadB : float64 :=
  2 * raytracing.Dot (raytracing.Direction r)
        (raytracing.Subtract (raytracing.Position r) (object.Sphere.Center s)).

Definition quadC : float64 :=
  raytracing.Dot
    (raytracing.Subtract (raytracing.Position r) (object.Sphere.Center s))
    (raytracing.Subtract (raytracing.Position r) (object.Sphere.Center s))
  - object.Sphere.Radius s * object.Sphere.Radius s.

Definition discriminant : float64 := quadB * quadB - 4 * quadA * quadC.

Definition rootPlus : float64 := (- quadB + Sqrt discriminant) / (2 * quadA).
Definition rootMinus : float64 := (- quadB - Sqrt discriminant) / (2 * quadA).

Definition smallerRoot : float64 := Min rootPlus rootMinus.
Definition largerRoot : float64 := Max rootPlus rootMinus.

End SphereQuadratic.

(** C4: for every sphere, ray and [maxRange], [Sphere.Intersect] solves
    the quadratic of [|O + tD - C|^2 = r^2]: with a negative discriminant
    it returns [(false, maxRange)]; otherwise, for [t] the smaller of the
    two roots, it returns [(true, t)] exactly when [1e-4 < t < maxRange]
    and [(false, maxRange)] otherwise.  In particular a smaller root at or
    below [1e-4] is a miss whatever the larger root is: the ray from the
    center of the unit sphere has roots [-1] and [1] and misses. *)
Theorem Sphere_Intersect_smaller_root (s : object.Sphere.t) (r : Ray) (maxRange : float64) :
  let t := smallerRoot s r in
  ((discriminant s r <? 0) = true ->
     object.Sphere.Intersect s r maxRange = (false, maxRange)) /\
  ((discriminant s r <? 0) = false ->
     ((1e-4 <? t) && (t <? maxRange) = true ->
        object.Sphere.Intersect s r maxRange = (true, t)) /\
     ((1e-4 <? t) && (t <? maxRange) = false ->
        object.Sphere.Intersect s r maxRange = (false, maxRange)) /\
     ((t <=? 1e-4) = true ->
        object.Sphere.Intersect s r maxRange = (false, maxRange))) /\
  (let unit := {| object.Sphere.Material := Some 0%Z; object.Sphere.Radius := 1;
                  object.Sphere.Center :=
                    {| raytracing.X := 0; raytracing.Y := 0; raytracing.Z := 0 |} |} in
   let inside :=
     {| raytracing.Position := {| raytracing.X := 0; raytracing.Y := 0; raytracing.Z := 0 |};
        raytracing.Direction :=
          {| raytracing.X := 0; raytracing.Y := 0; raytracing.Z := 1 |} |} in
   smallerRoot unit inside = -1 /\ largerRoot unit inside = 1 /\
   (1e-4 <? largerRoot unit inside) && (largerRoot unit inside <? 100) = true /\
   object.Sphere.Intersect unit inside 100 = (false, 100)).
Proof.
  cbv zeta. split; [ | split ].
  - intros D. unfold object.Sphere.Intersect.
    fold (quadA r). fold (quadB s r). fold (quadC s r). fold (discriminant s r).
    rewrite D. reflexivity.
  - intros D.
    assert (E : object.Sphere.Intersect s r maxRange =
                if (1e-4 <? smallerRoot s r) && (smallerRoot s r <? maxRange)
                then (true, smallerRoot s r) else (false, maxRange)).
    { unfold object.Sphere.Intersect.
      fold (quadA r). fold (quadB s r). fold (quadC s r). fold (discriminant s r).
      rewrite D. reflexivity. }
    rewrite E. split; [ | split ].
    + intros H. rewrite H. reflexivity.
    + intros H. rewrite H. reflexivity.
    + intros H. rewrite (leb_not_ltb _ _ H). reflexivity.
  - vm_compute. repeat split.
Qed.

(** ** The contract of Intersect *)

(** The hit an object reports when the range does not limit it. *)
Definition nearestHit (o : Object) (r : Ray) : option float64 :=
  match object.Intersect o r infinity with
  | (true, t) => Some t
  | (false, _) => None
  end.

Ltac range_cases m :=
  repeat (match goal with
  | |- context [if ?g then (false, _) else _] => destruct g
  | |- context [?t <? infinity] =>
      let Einf := fresh "Einf" in
      destruct (t <? infinity) eqn:Einf;
      [ | rewrite (not_ltb_infinity t m Einf) ]
  | |- context [(?a <? ?b) && _] => destruct (a <? b)
  | |- context [if (?a <? m) then _ else _] => destruct (a <? m)
  end; cbn [andb]); try reflexivity.

(** Every [Intersect] tests a parameter that does not depend on
    [maxRange] against [maxRange], and returns [maxRange] on a miss. *)
Lemma Intersect_range (o : Object) (r : Ray) (m : float64) :
  object.Intersect o r m =
  match nearestHit o r with
  | Some t => if t <? m then (true, t) else (false, m)
  | None => (false, m)
  end.
Proof.
  unfold nearestHit.
  destruct o as [s | p | b]; cbn [object.Intersect].
  - unfold object.Sphere.Intersect. cbv zeta. range_cases m.
  - unfold object.Plane.Intersect. cbv zeta. range_cases m.
  - unfold object.Box.Intersect. cbv zeta. range_cases m.
Qed.

Lemma nearestHit_bounds (o : Object) (r : Ray) (t : float64) :
  nearestHit o r = Some t -> (1e-4 <? t) = true /\ (t <? infinity) = true.
Proof.
  unfold nearestHit.
  destruct o as [s | p | b]; cbn [object.Intersect].
  - unfold object.Sphere.Intersect. cbv zeta.
    repeat match goal with
    | |- context [if ?g then _ else _] => destruct g eqn:?
    end; intros [= <-]; try discriminate.
    apply andb_true_iff. assumption.
  - unfold object.Plane.Intersect. cbv zeta.
    repeat match goal with
    | |- context [if ?g then _ else _] => destruct g eqn:?
    end; intros [= <-]; try discriminate.
    apply andb_true_iff. assumption.
  - unfold object.Box.Intersect. cbv zeta.
    repeat match goal with
    | |- context [if ?g then _ else _] => destruct g eqn:?
    end; intros [= <-]; try discriminate.
    repeat match goal with
    | H : _ && _ = true |- _ => apply andb_true_iff in H; destruct H
    end. split; assumption.
Qed.

(** A miss hands [maxRange] back; a hit lies strictly between [1e-4] and
    [maxRange]. *)
Lemma Intersect_contract (o : Object) (r : Ray) (m : float64) :
  object.Intersect o r m = (false, m) \/
  exists t, object.Intersect o r m = (true, t) /\
            (1e-4 <? t) = true /\ (t <? m) = true.
Proof.
  rewrite Intersect_range.
  destruct (nearestHit o r) as [t | ] eqn:N; [ | left; reflexivity ].
  destruct (t <? m) eqn:L; [ right | left; reflexivity ].
  exists t. repeat split; try assumption.
  apply (nearestHit_bounds o r t N).
Qed.

End object_spec.

(* ================================================================== *)
(** * Properties of internal/scene *)
(* ================================================================== *)

Module scene_spec.

Import Float64 Float64Facts.
Local Open Scope float_scope.

Abbreviation Vector := raytracing.Vector.
Abbreviation Ray := raytracing.Ray.
Abbreviation Color := raytracing.Color.
Abbreviation Light := raytracing.Light.
Abbreviation Object := object.Object.
Abbreviation Scene := scene.Scene.

(** ** Initialize *)

(** An object's material id resolves in a list of [materials] entries:
    the object has a material, and its index is within the list. *)
Definition resolves (materials : Z) (o : Object) : Prop :=
  match object.MaterialID o with
  | Some materialID => (0 <= materialID < materials)%Z
  | None => False
  end.

Lemma firstInvalid_None (materials : Z) (objects : list Object) :
  forall i, scene.firstInvalid materials objects i = scene.Returns None <->
            Forall (resolves materials) objects.
Proof.
  induction objects as [ | o rest IH]; intros i; cbn [scene.firstInvalid].
  - split; [ constructor | reflexivity ].
  - destruct (object.MaterialID o) as [id | ] eqn:M.
    + destruct ((id <? 0)%Z || (id >=? materials)%Z) eqn:E.
      * split; [ discriminate | ].
        intros F. inversion F as [ | ? ? R _ ]; subst. unfold resolves in R.
        rewrite M in R. apply orb_true_iff in E. destruct E as [E | E]; lia.
      * rewrite IH. apply orb_false_iff in E. destruct E as [E1 E2].
        split.
        -- intros F. constructor; [ unfold resolves; rewrite M; lia | assumption ].
        -- intros F. inversion F; assumption.
    + split; [ discriminate | ].
      intros F. inversion F as [ | ? ? R _ ]; subst. unfold resolves in R.
      rewrite M in R. contradiction.
Qed.

Lemma Initialize_success (s : Scene) :
  (exists s', scene.Initialize s = scene.Returns (s', None)) <->
  Forall (resolves (scene.len (scene.Materials s))) (scene.Objects s).
Proof.
  rewrite <- (firstInvalid_None _ _ 0%Z). unfold scene.Initialize.
  destruct (scene.firstInvalid _ _ _) as [[i | ] | ]; split;
    try (intros [s' E]; discriminate); try discriminate; try reflexivity.
  intros _. eexists. reflexivity.
Qed.

(** [Initialize] changes nothing but the derived ambient light. *)
Lemma Initialize_keeps_lists (s s' : Scene) (e : option string) :
  scene.Initialize s = scene.Returns (s', e) ->
  scene.Materials s' = scene.Materials s /\
  scene.Objects s' = scene.Objects s /\
  scene.Lights s' = scene.Lights s.
Proof.
  unfold scene.Initialize.
  destruct (scene.firstInvalid _ _ _) as [[i | ] | ]; try discriminate;
    intros [= <- _]; repeat split.
Qed.

(** ** FindIntersection *)

Section Scan.

Variable r : Ray.

Abbreviation hit o := (object_spec.nearestHit o r).

(** A scan over objects none of which has a hit below the current best
    leaves the state as it is. *)
Lemma scan_all_miss (objects : list Object) :
  forall i t0 cur0,
  Forall (fun o => forall t', hit o = Some t' -> (t' <? t0) = false) objects ->
  scene.scan r objects i t0 cur0 = (t0, cur0).
Proof.
  induction objects as [ | o rest IH]; intros i t0 cur0 F; [ reflexivity | ].
  inversion F as [ | ? ? M F' ]; subst.
  cbn [scene.scan]. rewrite object_spec.Intersect_range.
  destruct (hit o) as [to | ] eqn:N.
  - rewrite (M to eq_refl). apply IH. assumption.
  - apply IH. assumption.
Qed.

(** What a scan returns: the state it started from when nothing is below
    the current best, and otherwise the smallest hit and an object that
    has it. *)
Lemma scan_spec (objects : list Object) :
  forall i t0 cur0, number t0 ->
  (scene.scan r objects i t0 cur0 = (t0, cur0) /\
   Forall (fun o => forall t', hit o = Some t' -> (t' <? t0) = false) objects)
  \/
  (exists t cur o,
     scene.scan r objects i t0 cur0 = (t, cur) /\
     (i <= cur < i + scene.len objects)%Z /\
     nth_error objects (Z.to_nat (cur - i)) = Some o /\
     hit o = Some t /\ (t <? t0) = true /\
     Forall (fun o' => forall t', hit o' = Some t' -> (t <=? t') = true) objects).
Proof.
  induction objects as [ | o rest IH]; intros i t0 cur0 N0.
  { left. split; [ reflexivity | constructor ]. }
  cbn [scene.scan]. rewrite object_spec.Intersect_range.
  assert (Shift : forall cur, (i + 1 <= cur)%Z ->
            nth_error (o :: rest) (Z.to_nat (cur - i)) =
            nth_error rest (Z.to_nat (cur - (i + 1)))).
  { intros cur Hc. replace (cur - i)%Z with (Z.succ (cur - (i + 1)))%Z by lia.
    rewrite Z2Nat.inj_succ by lia. reflexivity. }
  assert (Len : scene.len (o :: rest) = (scene.len rest + 1)%Z).
  { unfold scene.len. cbn [List.length]. lia. }
  assert (Pos : (0 <= scene.len rest)%Z) by (unfold scene.len; lia).
  destruct (hit o) as [to | ] eqn:No.
  - pose proof (object_spec.nearestHit_bounds o r to No) as [Heps Hinf].
    pose proof (ltb_number _ _ Hinf) as [Nto _].
    destruct (to <? t0) eqn:L.
    + (* the object reports a hit: the scan goes on below [to] *)
      right. destruct (IH (i + 1)%Z to i Nto) as [[E F] | (t & cur & o' & E & R & Nth & Ho' & Lt & F)].
      * exists to, i, o. rewrite E, Len. repeat split; try lia; try assumption.
        -- replace (i - i)%Z with 0%Z by lia. reflexivity.
        -- constructor.
           ++ intros t' Ht'. rewrite No in Ht'. injection Ht' as <-. apply number_leb_refl. assumption.
           ++ rewrite Forall_forall in F |- *. intros o' I t' Ht'.
              apply number_not_ltb_leb; try assumption.
              ** apply (object_spec.nearestHit_bounds o' r t') in Ht'.
                 destruct Ht' as [_ H]. apply (ltb_number _ _ H).
              ** apply (F o' I t'). assumption.
      * exists t, cur, o'. rewrite E, Len. repeat split; try lia; try assumption.
        -- rewrite Shift by lia. assumption.
        -- eapply ltb_trans; eassumption.
        -- constructor; [ | assumption ].
           intros t' Ht'. rewrite No in Ht'. injection Ht' as <-. apply ltb_leb. assumption.
    + (* a hit that is not below the current best is not reported *)
      destruct (IH (i + 1)%Z t0 cur0 N0) as [[E F] | (t & cur & o' & E & R & Nth & Ho' & Lt & F)].
      * left. split; [ assumption | ].
        constructor; [ | assumption ]. intros t' Ht'. rewrite No in Ht'. injection Ht' as <-. assumption.
      * right. exists t, cur, o'. rewrite E, Len. repeat split; try lia; try assumption.
        -- rewrite Shift by lia. assumption.
        -- constructor; [ | assumption ].
           intros t' Ht'. rewrite No in Ht'. injection Ht' as <-.
           apply ltb_leb. eapply ltb_leb_trans; [ eassumption | ].
           apply number_not_ltb_leb; assumption.
  - destruct (IH (i + 1)%Z t0 cur0 N0) as [[E F] | (t & cur & o' & E & R & Nth & Ho' & Lt & F)].
    + left. split; [ assumption | ].
      constructor; [ | assumption ]. intros t' Ht'. rewrite No in Ht'. discriminate.
    + right. exists t, cur, o'. rewrite E, Len. repeat split; try lia; try assumption.
      * rewrite Shift by lia. assumption.
      * constructor; [ | assumption ]. intros t' Ht'. rewrite No in Ht'. discriminate.
Qed.

End Scan.

(** An object hits within a range exactly when its own hit lies below
    the range. *)
Lemma Intersect_hit (o : Object) (r : Ray) (m t : float64) :
  object.Intersect o r m = (true, t) <->
  object_spec.nearestHit o r = Some t /\ (t <? m) = true.
Proof.
  rewrite object_spec.Intersect_range.
  destruct (object_spec.nearestHit o r) as [to | ].
  - destruct (to <? m) eqn:L; split.
    + intros [= <-]. split; [ reflexivity | assumption ].
    + intros [[= <-] _]. reflexivity.
    + discriminate.
    + intros [[= <-] L']. congruence.
  - split; [ discriminate | intros [H _]; discriminate ].
Qed.

Lemma Intersect_miss (o : Object) (r : Ray) (m : float64) :
  fst (object.Intersect o r m) = false <->
  (forall t, object_spec.nearestHit o r = Some t -> (t <? m) = false).
Proof.
  rewrite object_spec.Intersect_range.
  destruct (object_spec.nearestHit o r) as [to | ].
  - destruct (to <? m) eqn:L; cbn [fst]; split.
    + discriminate.
    + intros H. specialize (H to eq_refl). congruence.
    + intros _ t [= <-]. assumption.
    + reflexivity.
  - cbn [fst]. split; [ intros _ t; discriminate | reflexivity ].
Qed.

(** The first element of a list that satisfies a test. *)
Lemma first_such {A : Type} (p : A -> bool) (l : list A) :
  Exists (fun a => p a = true) l ->
  exists prefix a rest,
    l = prefix ++ a :: rest /\ Forall (fun b => p b = false) prefix /\ p a = true.
Proof.
  induction l as [ | a l IH]; intros X; [ inversion X | ].
  destruct (p a) eqn:P.
  - exists [], a, l. repeat split; [ constructor | assumption ].
  - inversion X as [ ? ? Pa | ? ? X' ]; subst; [ congruence | ].
    destruct (IH X') as (prefix & b & rest & -> & F & Pb).
    exists (a :: prefix), b, rest. repeat split; [ constructor | ]; assumption.
Qed.

Lemma number_20000 : number 20000.
Proof. reflexivity. Qed.

(** The two ways [FindIntersection] ends. *)
Lemma FindIntersection_cases (s : Scene) (r : Ray) :
  (scene.FindIntersection s r = (false, 20000, (-1)%Z) /\
   Forall (fun o => forall t', object_spec.nearestHit o r = Some t' ->
                               (t' <? 20000) = false) (scene.Objects s))
  \/
  (exists t cur o,
     scene.FindIntersection s r = (true, t, cur) /\
     scene.index (scene.Objects s) cur = Some o /\
     object_spec.nearestHit o r = Some t /\ (t <? 20000) = true /\
     Forall (fun o' => forall t', object_spec.nearestHit o' r = Some t' ->
                                  (t <=? t') = true) (scene.Objects s)).
Proof.
  unfold scene.FindIntersection.
  destruct (scan_spec r (scene.Objects s) 0%Z 20000 (-1)%Z number_20000)
    as [[E F] | (t & cur & o & E & R & Nth & Ho & Lt & F)]; rewrite E.
  - left. split; [ reflexivity | assumption ].
  - right. exists t, cur, o. repeat split; try assumption.
    + destruct (cur =? -1)%Z eqn:C; [ lia | reflexivity ].
    + unfold scene.index. destruct (cur <? 0)%Z eqn:C; [ lia | ].
      replace (cur - 0)%Z with cur in Nth by lia. assumption.
Qed.

(** C2: for every scene and ray, [FindIntersection] is one left-to-right
    scan of the object list that hands the current best [t] to each
    [Intersect] as its [maxRange].  It reports an intersection if and only
    if some object reports a hit when its turn comes (equivalently, some
    object has a hit below the initial range); the [t] it then returns
    lies strictly between [1e-4] and the initial range, is the hit of the
    object at the returned index, and no object of the scene has a nearer
    hit; without a hit it returns the initial range and the index [-1].
    Every [Intersect] hands [maxRange] back on a miss, and a reported hit
    lies strictly between [1e-4] and the [maxRange] it was given. *)
Theorem FindIntersection_nearest_hit (s : Scene) (r : Ray) :
  let intersected := fst (fst (scene.FindIntersection s r)) in
  let t := snd (fst (scene.FindIntersection s r)) in
  let currentObject := snd (scene.FindIntersection s r) in
  ((t, currentObject) = scene.scan r (scene.Objects s) 0 20000 (-1)) /\
  (intersected = true <->
     exists prefix o rest,
       scene.Objects s = prefix ++ o :: rest /\
       fst (object.Intersect o r (fst (scene.scan r prefix 0 20000 (-1)))) = true) /\
  (intersected = true <->
     Exists (fun o => fst (object.Intersect o r 20000) = true) (scene.Objects s)) /\
  (intersected = true ->
     (1e-4 <? t) = true /\ (t <? 20000) = true /\
     (exists o, scene.index (scene.Objects s) currentObject = Some o /\
                object.Intersect o r 20000 = (true, t)) /\
     Forall (fun o => forall m t', object.Intersect o r m = (true, t') ->
                                   (t <=? t') = true) (scene.Objects s)) /\
  (intersected = false -> t = 20000 /\ currentObject = (-1)%Z) /\
  (forall (o : Object) (m : float64),
     object.Intersect o r m = (false, m) \/
     exists t', object.Intersect o r m = (true, t') /\
                (1e-4 <? t') = true /\ (t' <? m) = true).
Proof.
  cbv zeta.
  assert (Below : fst (fst (scene.FindIntersection s r)) = true <->
            Exists (fun o => fst (object.Intersect o r 20000) = true) (scene.Objects s)).
  { destruct (FindIntersection_cases s r)
      as [[E F] | (t & cur & o & E & Idx & Ho & Lt & F)]; rewrite E; cbn [fst snd].
    - split; [ discriminate | ].
      intros X. apply Exists_exists in X. destruct X as (o & I & H).
      rewrite Forall_forall in F.
      apply (proj2 (Intersect_miss o r 20000)) in F; [ congruence | assumption ].
    - split; [ intros _ | reflexivity ].
      apply Exists_exists. exists o. split.
      + unfold scene.index in Idx. destruct (cur <? 0)%Z; [ discriminate | ].
        eapply nth_error_In. eassumption.
      + rewrite (proj2 (Intersect_hit o r 20000 t)); [ reflexivity | ]. split; assumption. }
  split; [ | split; [ | split; [ exact Below | split; [ | split ] ] ] ].
  - unfold scene.FindIntersection.
    destruct (scene.scan r (scene.Objects s) 0 20000 (-1)) as [t cur]. reflexivity.
  - rewrite Below. split.
    + intros X.
      destruct (first_such (fun o => fst (object.Intersect o r 20000)) _ X)
        as (prefix & o & rest & E & F & H).
      exists prefix, o, rest. split; [ assumption | ].
      rewrite scan_all_miss; [ assumption | ].
      rewrite Forall_forall in F |- *. intros o' I.
      apply Intersect_miss. apply F. assumption.
    + intros (prefix & o & rest & E & H).
      apply Exists_exists. exists o. split.
      { rewrite E. apply in_elt. }
      destruct (object.Intersect o r (fst (scene.scan r prefix 0 20000 (-1))))
        as [b t] eqn:I. cbn [fst] in H. subst b.
      apply Intersect_hit in I. destruct I as [Ho Lt].
      assert (L : (t <? 20000) = true).
      { destruct (scan_spec r prefix 0%Z 20000 (-1)%Z number_20000)
          as [[E' _] | (t1 & cur & o1 & E' & _ & _ & _ & Lt1 & _)];
          rewrite E' in Lt; cbn [fst] in Lt; [ assumption | ].
        eapply ltb_trans; eassumption. }
      rewrite (proj2 (Intersect_hit o r 20000 t)); [ reflexivity | ]. split; assumption.
  - destruct (FindIntersection_cases s r)
      as [[E F] | (t & cur & o & E & Idx & Ho & Lt & F)]; rewrite E; cbn [fst snd];
      [ discriminate | ].
    intros _. repeat split.
    + apply (object_spec.nearestHit_bounds o r t Ho).
    + assumption.
    + exists o. split; [ assumption | ]. apply Intersect_hit. split; assumption.
    + rewrite Forall_forall in F |- *. intros o' I m t' H.
      apply Intersect_hit in H. destruct H as [H _]. apply (F o' I t' H).
  - destruct (FindIntersection_cases s r)
      as [[E F] | (t & cur & o & E & Idx & Ho & Lt & F)]; rewrite E; cbn [fst snd].
    + intros _. split; reflexivity.
    + discriminate.
  - intros o m. apply object_spec.Intersect_contract.
Qed.

(** C9: the search of [FindIntersection] starts from the range 20000.
    For every scene and ray a reported intersection has a parameter below
    20000; when every hit the objects have lies at 20000 or beyond,
    nothing is reported, and whenever nothing is reported the returned
    distance is exactly 20000 (with index [-1]).  The shadow test of
    [TraceRay] keeps a light exactly when that returned distance is above
    1.0, which the value 20000 of a miss is. *)
Theorem FindIntersection_capped_at_20000 (s : Scene) (r : Ray) :
  let intersected := fst (fst (scene.FindIntersection s r)) in
  let t := snd (fst (scene.FindIntersection s r)) in
  (intersected = true -> (t <? 20000) = true) /\
  (Forall (fun o => forall t', object_spec.nearestHit o r = Some t' ->
                               (20000 <=? t') = true) (scene.Objects s) ->
   scene.FindIntersection s r = (false, 20000, (-1)%Z)) /\
  (intersected = false -> scene.FindIntersection s r = (false, 20000, (-1)%Z)) /\
  (forall (intersection : Vector) (visible : list Light) (light : Light),
     let lightRay :=
       {| raytracing.Position := intersection;
          raytracing.Direction :=
            raytracing.Subtract (raytracing.Light.Position light) intersection |} in
     let distance := snd (fst (scene.FindIntersection s lightRay)) in
     (fst (fst (scene.FindIntersection s lightRay)) = false -> distance = 20000) /\
     scene.shadowStep s intersection visible light =
     if 1.0 <? distance then visible ++ [light] else visible) /\
  (1.0 <? 20000) = true.
Proof.
  cbv zeta. split; [ | split; [ | split; [ | split ] ] ].
  - destruct (FindIntersection_cases s r)
      as [[E F] | (t & cur & o & E & Idx & Ho & Lt & F)]; rewrite E; cbn [fst snd];
      [ discriminate | intros _; assumption ].
  - intros Far. unfold scene.FindIntersection.
    rewrite scan_all_miss; [ reflexivity | ].
    rewrite Forall_forall in Far |- *. intros o I t' H.
    apply leb_not_ltb. apply (Far o I t' H).
  - destruct (FindIntersection_cases s r)
      as [[E F] | (t & cur & o & E & Idx & Ho & Lt & F)]; rewrite E; cbn [fst snd];
      [ reflexivity | discriminate ].
  - intros intersection visible light. unfold scene.shadowStep.
    destruct (FindIntersection_cases s
                {| raytracing.Position := intersection;
                   raytracing.Direction :=
                     raytracing.Subtract (raytracing.Light.Position light) intersection |})
      as [[E F] | (t & cur & o & E & Idx & Ho & Lt & F)]; rewrite E; cbn [fst snd negb].
    + split; reflexivity.
    + split; [ discriminate | ].
      destruct (1.0 <? t); reflexivity.
  - reflexivity.
Qed.

(** ** The shadow test of TraceRay *)

(** The shadow ray from a hit point to a light: its direction is the
    light position minus the hit point, not normalized. *)
Definition shadowRay (intersection : Vector) (light : Light) : Ray :=
  {| raytracing.Position := intersection;
     raytracing.Direction :=
       raytracing.Subtract (raytracing.Light.Position light) intersection |}.

(** The test of the specification: nothing is hit, or the nearest hit has
    a parameter above 1.0. *)
Definition unoccluded (s : Scene) (intersection : Vector) (light : Light) : bool :=
  negb (fst (fst (scene.FindIntersection s (shadowRay intersection light))))
  || (1.0 <? snd (fst (scene.FindIntersection s (shadowRay intersection light)))).

Lemma shadowStep_unoccluded (s : Scene) (intersection : Vector)
    (visible : list Light) (light : Light) :
  scene.shadowStep s intersection visible light =
  if unoccluded s intersection light then visible ++ [light] else visible.
Proof.
  unfold scene.shadowStep, unoccluded, shadowRay.
  destruct (scene.FindIntersection s _) as [[intersected distance] cur].
  cbn [fst snd]. destruct intersected; reflexivity.
Qed.

Lemma shadow_loop (s : Scene) (intersection : Vector) (lights : list Light) :
  forall visible,
  fold_left (scene.shadowStep s intersection) lights visible =
  visible ++ filter (unoccluded s intersection) lights.
Proof.
  induction lights as [ | light lights IH]; intros visible; cbn [fold_left filter].
  - rewrite app_nil_r. reflexivity.
  - rewrite IH, shadowStep_unoccluded.
    destruct (unoccluded s intersection light); [ | reflexivity ].
    rewrite <- app_assoc. reflexivity.
Qed.

Lemma visibleLights_filter (s : Scene) (intersection : Vector) :
  scene.visibleLights s intersection =
  filter (unoccluded s intersection) (scene.Lights s).
Proof. unfold scene.visibleLights. rewrite shadow_loop. reflexivity. Qed.

(** ** What TraceRay hands to the lighting model *)

(** The point a ray reaches at the parameter [t]. *)
Definition hitPoint (r : Ray) (t : float64) : Vector :=
  raytracing.Add (raytracing.Position r) (raytracing.Scale (raytracing.Direction r) t).

(** The ray that leaves a hit point: the direction of [r] mirrored about
    the normal and normalized again. *)
Definition reflectedRay (r : Ray) (intersection normal : Vector) : Ray :=
  {| raytracing.Position := intersection;
     raytracing.Direction :=
       fst (raytracing.Normalize
              (raytracing.Subtract (raytracing.Direction r)
                 (raytracing.Scale normal
                    (2.0 * raytracing.Dot (raytracing.Direction r) normal)))) |}.

(** The color of a call: the surface color weighted by the light
    strength, added to the zero color, plus the reflected color. *)
Definition shade (surfaceColor : Color) (lightStrength : float64)
    (reflectedColor : Color) : Color :=
  {| raytracing.Red :=
       (0 + raytracing.Red surfaceColor * lightStrength) + raytracing.Red reflectedColor;
     raytracing.Green :=
       (0 + raytracing.Green surfaceColor * lightStrength)
       + raytracing.Green reflectedColor;
     raytracing.Blue :=
       (0 + raytracing.Blue surfaceColor * lightStrength)
       + raytracing.Blue reflectedColor |}.

(** C1: in [TraceRay], for every hit point and every light of the scene,
    the light is in the visible-light set handed to the lighting model if
    and only if the shadow ray from the hit point, with the direction
    light position minus hit point, finds no intersection or finds its
    nearest intersection at a parameter [t > 1.0].  When the ray hits an
    object at [t], the material of the object resolves and the viewer
    direction normalizes, [TraceRay] calls the lighting model once, at the
    hit point [Position r + t * Direction r], on the sub-list of the lights
    of the scene that pass this test there (in the order of the scene),
    and the color it returns is built from the color the model returns for
    that list. *)
Theorem TraceRay_visible_lights (s : Scene) (lighting : raytracing.LightingModel)
    (r : Ray) (lightStrength : float64) (remainingDepth : Z)
    (t : float64) (currentObject materialID : Z) (o : Object)
    (material : raytracing.Material) :
  scene.FindIntersection s r = (true, t, currentObject) ->
  scene.index (scene.Objects s) currentObject = Some o ->
  object.MaterialID o = Some materialID ->
  scene.index (scene.Materials s) materialID = Some material ->
  snd (raytracing.Normalize (raytracing.Negative (raytracing.Direction r))) = true ->
  let intersection := hitPoint r t in
  let viewer := fst (raytracing.Normalize (raytracing.Negative (raytracing.Direction r))) in
  let normal := object.SurfaceNormal o intersection in
  exists visibleLights,
    (forall light,
       In light visibleLights <->
       In light (scene.Lights s) /\
       let found := scene.FindIntersection s (shadowRay intersection light) in
       fst (fst found) = false \/ (1.0 <? snd (fst found)) = true) /\
    visibleLights = filter (unoccluded s intersection) (scene.Lights s) /\
    let surfaceColor :=
      lighting visibleLights (scene.ambientLight s) viewer intersection normal material in
    (forall calls, (remainingDepth <= 0)%Z ->
       scene.TraceRay calls s r lightStrength remainingDepth lighting =
       Some (scene.Returns (shade surfaceColor lightStrength raytracing.black))) /\
    (forall calls, (0 < remainingDepth)%Z ->
       scene.TraceRay (S calls) s r lightStrength remainingDepth lighting =
       match scene.TraceRay calls s (reflectedRay r intersection normal)
               (lightStrength * raytracing.Material.Reflectance material)
               (remainingDepth - 1) lighting with
       | Some (scene.Returns reflectedColor) =>
           Some (scene.Returns (shade surfaceColor lightStrength reflectedColor))
       | Some scene.Panics => Some scene.Panics
       | None => None
       end).
Proof.
  intros Hit Idx Id Mat Ok. cbv zeta.
  exists (scene.visibleLights s (hitPoint r t)).
  split; [ | split; [ apply visibleLights_filter | split ] ].
  - intros light. rewrite visibleLights_filter, filter_In. unfold unoccluded.
    rewrite orb_true_iff, negb_true_iff. reflexivity.
  - intros calls Depth.
    assert (D : (remainingDepth >? 0)%Z = false) by lia.
    destruct calls; cbn [scene.TraceRay]; rewrite Hit; cbn [negb];
      rewrite Idx, Id, Mat;
      rewrite (surjective_pairing (raytracing.Normalize _)), Ok; cbn [negb];
      rewrite D; reflexivity.
  - intros calls Depth.
    assert (D : (remainingDepth >? 0)%Z = true) by lia.
    cbn [scene.TraceRay]. rewrite Hit. cbn [negb]. rewrite Idx, Id, Mat.
    rewrite (surjective_pairing (raytracing.Normalize _)), Ok. cbn [negb].
    rewrite D. fold (hitPoint r t).
    fold (reflectedRay r (hitPoint r t) (object.SurfaceNormal o (hitPoint r t))).
    destruct (scene.TraceRay calls s _ _ _ lighting) as [[c | ] | ]; reflexivity.
Qed.

(** ** Termination of TraceRay *)

Lemma TraceRay_returns (s : Scene) (lighting : raytracing.LightingModel) :
  forall calls r lightStrength remainingDepth,
  (remainingDepth <= Z.of_nat calls)%Z ->
  exists out, scene.TraceRay calls s r lightStrength remainingDepth lighting = Some out.
Proof.
  induction calls as [ | calls IH]; intros r lightStrength remainingDepth Le;
    cbn [scene.TraceRay];
    destruct (scene.FindIntersection s r) as [[intersected t] cur];
    destruct intersected; cbn [negb]; eauto;
    destruct (scene.index (scene.Objects s) cur) as [o | ]; eauto;
    destruct (object.MaterialID o) as [materialID | ]; eauto;
    destruct (scene.index (scene.Materials s) materialID) as [material | ];
    eauto;
    destruct (raytracing.Normalize (raytracing.Negative (raytracing.Direction r)))
      as [viewer ok];
    destruct ok; cbn [negb]; eauto;
    destruct (remainingDepth >? 0)%Z eqn:D; eauto; try lia.
  match goal with
  | |- context [scene.TraceRay calls s ?r' ?l' ?d' lighting] =>
      destruct (IH r' l' d') as [[c | ] E]; [ lia | rewrite E; eauto | rewrite E; eauto ]
  end.
Qed.

Lemma TraceRay_more_calls (s : Scene) (lighting : raytracing.LightingModel) :
  forall calls calls' r lightStrength remainingDepth out,
  scene.TraceRay calls s r lightStrength remainingDepth lighting = Some out ->
  (calls <= calls')%nat ->
  scene.TraceRay calls' s r lightStrength remainingDepth lighting = Some out.
Proof.
  induction calls as [ | calls IH]; intros calls' r lightStrength remainingDepth out;
    (destruct calls' as [ | calls']; [ | ]); try (intros _ Le; exfalso; lia);
    cbn [scene.TraceRay];
    destruct (scene.FindIntersection s r) as [[intersected t] cur];
    destruct intersected; cbn [negb]; try (intros; assumption);
    destruct (scene.index (scene.Objects s) cur) as [o | ]; try (intros; assumption);
    destruct (object.MaterialID o) as [materialID | ]; try (intros; assumption);
    destruct (scene.index (scene.Materials s) materialID) as [material | ];
    try (intros; assumption);
    destruct (raytracing.Normalize (raytracing.Negative (raytracing.Direction r)))
      as [viewer ok];
    destruct ok; cbn [negb]; try (intros; assumption);
    destruct (remainingDepth >? 0)%Z eqn:D; try (intros; assumption);
    try discriminate.
  intros H Le.
  match type of H with
  | context [scene.TraceRay calls s ?r' ?l' ?d' lighting] =>
      destruct (scene.TraceRay calls s r' l' d' lighting) as [out' | ] eqn:E;
      [ rewrite (IH calls' r' l' d' out' E) by lia; assumption | discriminate ]
  end.
Qed.

(** When the bound on the nesting is too small, a recursive call was
    due: the depth was positive, and with one more level the call for
    some ray at depth minus one is the one that does not fit. *)
Lemma TraceRay_recursion (s : Scene) (lighting : raytracing.LightingModel) :
  forall calls r lightStrength remainingDepth,
  scene.TraceRay calls s r lightStrength remainingDepth lighting = None ->
  (remainingDepth > 0)%Z /\
  (forall calls', calls = S calls' ->
     exists r' lightStrength',
       scene.TraceRay calls' s r' lightStrength' (remainingDepth - 1) lighting = None).
Proof.
  intros calls r lightStrength remainingDepth.
  destruct calls as [ | calls]; cbn [scene.TraceRay];
    destruct (scene.FindIntersection s r) as [[intersected t] cur];
    destruct intersected; cbn [negb]; try discriminate;
    destruct (scene.index (scene.Objects s) cur) as [o | ]; try discriminate;
    destruct (object.MaterialID o) as [materialID | ]; try discriminate;
    destruct (scene.index (scene.Materials s) materialID) as [material | ];
    try discriminate;
    destruct (raytracing.Normalize (raytracing.Negative (raytracing.Direction r)))
      as [viewer ok];
    destruct ok; cbn [negb]; try discriminate;
    destruct (remainingDepth >? 0)%Z eqn:D; try discriminate; intros H.
  - split; [ lia | intros calls'; discriminate ].
  - split; [ lia | ]. intros calls' [= <-].
    match type of H with
    | context [scene.TraceRay calls s ?r' ?l' ?d' lighting] =>
        exists r', l';
        destruct (scene.TraceRay calls s r' l' d' lighting) as [[c | ] | ];
        [ discriminate | discriminate | reflexivity ]
    end.
Qed.

(** C3: for every scene, ray, light strength, lighting model and every
    [remainingDepth >= 0], whatever the reflectances of the materials,
    [TraceRay] terminates with at most [remainingDepth] nested recursive
    calls (and with any larger bound it ends the same way); it recurses
    only when [remainingDepth > 0], and then with [remainingDepth - 1]. *)
Theorem TraceRay_terminates_within_depth (s : Scene) (r : Ray) (lightStrength : float64)
    (lighting : raytracing.LightingModel) (remainingDepth : Z) :
  (0 <= remainingDepth)%Z ->
  (exists out,
     scene.TraceRay (Z.to_nat remainingDepth) s r lightStrength remainingDepth lighting
       = Some out /\
     forall calls, (Z.to_nat remainingDepth <= calls)%nat ->
       scene.TraceRay calls s r lightStrength remainingDepth lighting = Some out) /\
  (forall calls,
     scene.TraceRay calls s r lightStrength remainingDepth lighting = None ->
     (remainingDepth > 0)%Z /\
     (forall calls', calls = S calls' ->
        exists r' lightStrength',
          scene.TraceRay calls' s r' lightStrength' (remainingDepth - 1) lighting = None)).
Proof.
  intros Pos. split.
  - destruct (TraceRay_returns s lighting (Z.to_nat remainingDepth) r lightStrength
                remainingDepth) as [out E]; [ lia | ].
    exists out. split; [ assumption | ].
    intros calls Le. eapply TraceRay_more_calls; eassumption.
  - intros calls. apply TraceRay_recursion.
Qed.

(** ** Validation of the material ids *)

Lemma index_In {A : Type} (l : list A) (i : Z) (a : A) :
  scene.index l i = Some a -> In a l.
Proof.
  unfold scene.index. destruct (i <? 0)%Z; [ discriminate | ].
  apply nth_error_In.
Qed.

Lemma index_in_range {A : Type} (l : list A) (i : Z) :
  (0 <= i < scene.len l)%Z -> exists a, scene.index l i = Some a.
Proof.
  unfold scene.index, scene.len. intros R.
  destruct (i <? 0)%Z eqn:N; [ lia | ].
  destruct (nth_error l (Z.to_nat i)) as [a | ] eqn:E; [ eauto | ].
  apply nth_error_None in E. lia.
Qed.

Lemma index_out_of_range {A : Type} (l : list A) (i : Z) :
  ~ (0 <= i < scene.len l)%Z -> scene.index l i = None.
Proof.
  unfold scene.index, scene.len. intros R.
  destruct (i <? 0)%Z eqn:N; [ reflexivity | ].
  apply nth_error_None. lia.
Qed.

(** Once every material id resolves, the lookups of [TraceRay] stay in
    range. *)
Lemma TraceRay_no_panic (s : Scene) (lighting : raytracing.LightingModel) :
  Forall (resolves (scene.len (scene.Materials s))) (scene.Objects s) ->
  forall calls r lightStrength remainingDepth,
  scene.TraceRay calls s r lightStrength remainingDepth lighting <> Some scene.Panics.
Proof.
  intros Valid.
  induction calls as [ | calls IH]; intros r lightStrength remainingDepth;
    cbn [scene.TraceRay];
    (destruct (FindIntersection_cases s r)
       as [[E F] | (t & cur & o & E & Idx & Ho & Lt & F)]; rewrite E; cbn [negb];
     [ discriminate | ]);
    rewrite Idx;
    (assert (R : resolves (scene.len (scene.Materials s)) o)
       by (rewrite Forall_forall in Valid; apply Valid; eapply index_In; eassumption));
    unfold resolves in R;
    (destruct (object.MaterialID o) as [materialID | ]; [ | contradiction ]);
    destruct (index_in_range (scene.Materials s) materialID R) as [material M];
    rewrite M;
    destruct (raytracing.Normalize (raytracing.Negative (raytracing.Direction r)))
      as [viewer ok];
    destruct ok; cbn [negb]; try discriminate;
    destruct (remainingDepth >? 0)%Z; try discriminate.
  match goal with
  | |- context [scene.TraceRay calls s ?r' ?l' ?d' lighting] =>
      pose proof (IH r' l' d') as NP;
      destruct (scene.TraceRay calls s r' l' d' lighting) as [[c | ] | ];
      [ discriminate | congruence | discriminate ]
  end.
Qed.

(** [TraceRay] does not check the material of the object it hits: a
    missing material, or an id that does not resolve, is the panic of the
    lookup. *)
Lemma TraceRay_unresolved_panics (s : Scene) (lighting : raytracing.LightingModel)
    (calls : nat) (r : Ray) (lightStrength : float64) (remainingDepth : Z)
    (t : float64) (cur : Z) (o : Object) :
  scene.FindIntersection s r = (true, t, cur) ->
  scene.index (scene.Objects s) cur = Some o ->
  ~ resolves (scene.len (scene.Materials s)) o ->
  scene.TraceRay calls s r lightStrength remainingDepth lighting = Some scene.Panics.
Proof.
  intros E Idx M. unfold resolves in M.
  destruct calls; cbn [scene.TraceRay]; rewrite E; cbn [negb]; rewrite Idx;
    (destruct (object.MaterialID o) as [materialID | ]; [ | reflexivity ]);
    rewrite (index_out_of_range _ _ M); reflexivity.
Qed.

(** A sphere decoded without a ["material"] (its [*Material] is [nil]),
    a sphere with the material index 0, and a scene without materials, in
    which no index resolves. *)
Definition bare : Object :=
  object.OfSphere
    {| object.Sphere.Material := None;
       object.Sphere.Radius := 1;
       object.Sphere.Center := {| raytracing.X := 0; raytracing.Y := 0; raytracing.Z := 0 |} |}.

Definition numbered : Object :=
  object.OfSphere
    {| object.Sphere.Material := Some 0%Z;
       object.Sphere.Radius := 1;
       object.Sphere.Center := {| raytracing.X := 0; raytracing.Y := 0; raytracing.Z := 0 |} |}.

Definition unfurnished (objects : list Object) : Scene :=
  {| scene.Materials := [];
     scene.Objects := objects;
     scene.Lights := [];
     scene.ambientLight := raytracing.black |}.

(** C7: the code breaks the claim on a scene in which an object without a
    material stands before an object whose material index does not
    resolve.  The second object of [unfurnished [bare; numbered]] has the
    index 0, which is not below the number of materials (0), so the claim
    has [Initialize] return an error; the validation loop calls
    [MaterialID] on the first object, which dereferences its [nil]
    [*Material]: [Initialize] panics and returns nothing.  With the two
    objects in the other order the error of the claim is returned, for
    object 0, and the scene is left as it was. *)
Theorem Initialize_panics_on_missing_material :
  let s := unfurnished [bare; numbered] in
  Exists (fun o => exists materialID,
            object.MaterialID o = Some materialID /\
            ((materialID < 0)%Z \/ (materialID >= scene.len (scene.Materials s))%Z))
         (scene.Objects s) /\
  scene.Initialize s = scene.Panics /\
  scene.Initialize (unfurnished [numbered; bare]) =
    scene.Returns (unfurnished [numbered; bare],
                   Some "invalid material id in object 0"%string).
Proof.
  cbv zeta. split; [ | split; reflexivity ].
  apply Exists_cons_tl, Exists_cons_hd. exists 0%Z. split; [ reflexivity | ].
  right. cbn. lia.
Qed.

(** The scene [Initialize] leaves behind when there is no light. *)
Definition withoutAmbient (s : Scene) : Scene :=
  {| scene.Materials := scene.Materials s;
     scene.Objects := scene.Objects s;
     scene.Lights := scene.Lights s;
     scene.ambientLight :=
       {| raytracing.Red := 0 / 0; raytracing.Green := 0 / 0; raytracing.Blue := 0 / 0 |} |}.

(** C10: [Initialize] does not guard the mean of the ambient lights
    against an empty light list.  For every scene without lights whose
    objects all have a valid material index it still returns success, and
    each channel of the derived ambient color is the quotient of zero by
    zero, which is NaN and not zero. *)
Theorem Initialize_without_lights (s : Scene) :
  scene.Lights s = [] ->
  Forall (resolves (scene.len (scene.Materials s))) (scene.Objects s) ->
  scene.Initialize s = scene.Returns (withoutAmbient s, None) /\
  (0 / 0 = nan /\ IsNaN (0 / 0) = true /\ (0 / 0 =? 0) = false).
Proof.
  intros NoLight Valid. split; [ | repeat split ].
  unfold scene.Initialize, withoutAmbient.
  rewrite (proj2 (firstInvalid_None _ _ 0%Z) Valid), NoLight. reflexivity.
Qed.

End scene_spec.

(* ================================================================== *)
(** * Properties of internal/camera *)
(* ================================================================== *)

Module camera_spec.

Import Float64 Float64Facts.
Local Open Scope float_scope.

Abbreviation Ray := raytracing.Ray.
Abbreviation Color := raytracing.Color.

(** A loop that appends one element per iteration. *)
Lemma append_loop_length {A B : Type} (f : B -> A) (l : list B) :
  forall acc : list A,
  List.length (fold_left (fun acc b => acc ++ [f b]) l acc) =
  (List.length acc + List.length l)%nat.
Proof.
  induction l as [ | b l IH]; intros acc; cbn [fold_left List.length]; [ lia | ].
  rewrite IH, length_app. cbn [List.length]. lia.
Qed.

Lemma append_loop_map {A B : Type} (f : B -> A) (l : list B) :
  forall acc : list A,
  fold_left (fun acc b => acc ++ [f b]) l acc = acc ++ map f l.
Proof.
  induction l as [ | b l IH]; intros acc; cbn [fold_left map].
  - rewrite app_nil_r. reflexivity.
  - rewrite IH, <- app_assoc. reflexivity.
Qed.

(** A counted loop whose body adds [k] elements adds [k] per round. *)
Lemma forRange_length {A : Type} (n : Z) (k : nat) (body : Z -> list A -> list A) :
  (forall i acc, List.length (body i acc) = (List.length acc + k)%nat) ->
  forall acc,
  List.length (camera.forRange n body acc) = (List.length acc + Z.to_nat n * k)%nat.
Proof.
  intros Step. unfold camera.forRange. generalize 0%nat as start.
  induction (Z.to_nat n) as [ | m IH]; intros start acc; cbn [seq fold_left]; [ lia | ].
  rewrite IH, Step. lia.
Qed.

(** The sample grid of a pixel has one ray per pair [(i, j)]. *)
Lemma pixelRays_length (c : camera.Camera) (pixelX pixelY : Z) :
  List.length (camera.pixelRays c pixelX pixelY) =
  (Z.to_nat (camera.AntiAliasingFactor c) * Z.to_nat (camera.AntiAliasingFactor c))%nat.
Proof.
  unfold camera.pixelRays.
  rewrite (forRange_length _ (Z.to_nat (camera.AntiAliasingFactor c))); [ reflexivity | ].
  intros i acc.
  rewrite (forRange_length _ 1%nat); [ lia | ].
  intros j acc'. rewrite length_app. reflexivity.
Qed.

(** [Set] keeps the rectangle, writes the pixel it is given and no
    other. *)
Lemma Set_dims (out : camera.Image) (x y : Z) (px : camera.RGBA) :
  camera.width (camera.Set_ out x y px) = camera.width out /\
  camera.height (camera.Set_ out x y px) = camera.height out.
Proof.
  unfold camera.Set_.
  destruct ((0 <=? x) && (x <? camera.width out) && (0 <=? y) && (y <? camera.height out))%Z;
    split; reflexivity.
Qed.

Lemma Set_At (out : camera.Image) (x y : Z) (px : camera.RGBA) :
  (0 <= x < camera.width out)%Z -> (0 <= y < camera.height out)%Z ->
  forall x' y',
  camera.At (camera.Set_ out x y px) x' y' =
  if ((x' =? x) && (y' =? y))%Z then px else camera.At out x' y'.
Proof.
  intros Bx By x' y'. unfold camera.Set_.
  replace ((0 <=? x) && (x <? camera.width out) && (0 <=? y) && (y <? camera.height out))%Z
    with true; [ reflexivity | ].
  symmetry. rewrite !andb_true_iff.
  repeat split; first [ apply Z.leb_le | apply Z.ltb_lt ]; lia.
Qed.

Lemma written_pixel (out : camera.Image) (x y : Z) (px : camera.RGBA) :
  (0 <= x < camera.width out)%Z -> (0 <= y < camera.height out)%Z ->
  camera.At (camera.Set_ out x y px) x y = px /\
  (forall x' y', (x', y') <> (x, y) ->
     camera.At (camera.Set_ out x y px) x' y' = camera.At out x' y').
Proof.
  intros Bx By. split.
  - rewrite Set_At by assumption. rewrite !Z.eqb_refl. reflexivity.
  - intros x' y' N. rewrite Set_At by assumption.
    destruct (x' =? x)%Z eqn:Ex; [ | reflexivity ].
    destruct (y' =? y)%Z eqn:Ey; [ | reflexivity ].
    apply Z.eqb_eq in Ex, Ey. subst. congruence.
Qed.

Section Rendering.

Variable TraceRay : Ray -> float64 -> Z -> Color.
Variable overflow : float64 -> Z.

Lemma traceAll_map (rays : list Ray) (maxRayReflections : Z) :
  camera.traceAll TraceRay rays maxRayReflections =
  map (fun ray => TraceRay ray 1.0 maxRayReflections) rays.
Proof. unfold camera.traceAll. rewrite append_loop_map. reflexivity. Qed.

(** The clamp of [renderRays]: the channel scaled to the display range
    and cut at the display maximum 255. *)
Definition clamp (x : float64) : float64 := Min (x * 255.0) 255.0.

(** The color of a pixel: the clamped means of its samples, converted. *)
Definition pixel (c : camera.Camera) (pixelX pixelY maxRayReflections : Z) : camera.RGBA :=
  let colors :=
    map (fun ray => TraceRay ray 1.0 maxRayReflections)
        (camera.pixelRays c pixelX pixelY) in
  {| camera.R := uint8 overflow (clamp (raytracing_spec.mean raytracing.Red colors));
     camera.G := uint8 overflow (clamp (raytracing_spec.mean raytracing.Green colors));
     camera.B := uint8 overflow (clamp (raytracing_spec.mean raytracing.Blue colors));
     camera.A := 255 |}.

Lemma channels_clamped_means (colors : list Color) :
  camera.channels colors =
  (clamp (raytracing_spec.mean raytracing.Red colors),
   clamp (raytracing_spec.mean raytracing.Green colors),
   clamp (raytracing_spec.mean raytracing.Blue colors)).
Proof.
  unfold camera.channels. rewrite raytracing_spec.AverageColors_mean. reflexivity.
Qed.

Lemma renderRays_pixel (c : camera.Camera) (out : camera.Image)
    (pixelX pixelY maxRayReflections : Z) :
  camera.renderRays TraceRay overflow out (camera.pixelRays c pixelX pixelY)
    pixelX pixelY maxRayReflections =
  camera.Set_ out pixelX pixelY (pixel c pixelX pixelY maxRayReflections).
Proof.
  unfold camera.renderRays. rewrite traceAll_map, channels_clamped_means. reflexivity.
Qed.

(** C8: for every pixel, [renderRays] writes the per-channel arithmetic
    mean of the traced colors of the pixel's samples, each channel clamped
    to the display maximum before it is converted and written.  With the
    anti-aliasing factor [N] the pixel has [N * N] samples, every one of
    them is traced and enters the mean, and no channel is above the
    maximum. *)
Theorem renderRays_mean_clamped (c : camera.Camera) (out : camera.Image)
    (pixelX pixelY maxRayReflections : Z) :
  (1 <= camera.AntiAliasingFactor c)%Z ->
  let N := camera.AntiAliasingFactor c in
  let rays := camera.pixelRays c pixelX pixelY in
  let colors := map (fun ray => TraceRay ray 1.0 maxRayReflections) rays in
  let red := clamp (raytracing_spec.mean raytracing.Red colors) in
  let green := clamp (raytracing_spec.mean raytracing.Green colors) in
  let blue := clamp (raytracing_spec.mean raytracing.Blue colors) in
  let written :=
    camera.renderRays TraceRay overflow out rays pixelX pixelY maxRayReflections in
  Z.of_nat (List.length rays) = (N * N)%Z /\
  camera.traceAll TraceRay rays maxRayReflections = colors /\
  Z.of_nat (List.length colors) = (N * N)%Z /\
  camera.channels colors = (red, green, blue) /\
  ((255 <? red) = false /\ (255 <? green) = false /\ (255 <? blue) = false) /\
  written =
    camera.Set_ out pixelX pixelY
      {| camera.R := uint8 overflow red; camera.G := uint8 overflow green;
         camera.B := uint8 overflow blue; camera.A := 255 |} /\
  (forall channel, channel = red \/ channel = green \/ channel = blue ->
     (0 <=? channel) = true ->
     exists n, exact_uint8 channel = Some n /\ uint8 overflow channel = n /\
               (0 <= n <= 255)%Z) /\
  ((0 <= pixelX < camera.width out)%Z -> (0 <= pixelY < camera.height out)%Z ->
   camera.At written pixelX pixelY =
     {| camera.R := uint8 overflow red; camera.G := uint8 overflow green;
        camera.B := uint8 overflow blue; camera.A := 255 |} /\
   (forall x y, (x, y) <> (pixelX, pixelY) ->
      camera.At written x y = camera.At out x y)).
Proof.
  intros Factor. cbv zeta.
  assert (L : Z.of_nat (List.length (camera.pixelRays c pixelX pixelY)) =
              (camera.AntiAliasingFactor c * camera.AntiAliasingFactor c)%Z).
  { rewrite pixelRays_length. lia. }
  split; [ exact L | ].
  split; [ apply traceAll_map | ].
  split; [ rewrite length_map; exact L | ].
  split; [ apply channels_clamped_means | ].
  split; [ repeat split; apply Min_255_bounded | ].
  split; [ apply renderRays_pixel | ].
  split.
  - intros channel Which Pos.
    destruct (uint8_defined channel Pos) as [n [E R]].
    { destruct Which as [-> | [-> | ->]]; apply Min_255_bounded. }
    exists n. repeat split; try assumption; try lia.
    apply uint8_exact. assumption.
  - intros Bx By. rewrite renderRays_pixel. apply written_pixel; assumption.
Qed.

End Rendering.

End camera_spec.

(* ================================================================== *)
(** * Concrete scenes *)
(* ================================================================== *)

Module examples.

Import Float64.
Local Open Scope float_scope.

Definition vec (x y z : float64) : raytracing.Vector :=
  {| raytracing.X := x; raytracing.Y := y; raytracing.Z := z |}.

Definition rgb (r g b : float64) : raytracing.Color :=
  {| raytracing.Red := r; raytracing.Green := g; raytracing.Blue := b |}.

(** A material that reflects everything ([reflectance = 1.0]). *)
Definition mirror : raytracing.Material :=
  {| raytracing.Material.Specular := rgb 1 1 1;
     raytracing.Material.Diffuse := rgb 0.5 0.5 0.5;
     raytracing.Material.Ambient := rgb 0.25 0.25 0.25;
     raytracing.Material.Alpha := 2;
     raytracing.Material.Reflectance := 1 |}.

Definition lamp : raytracing.Light :=
  {| raytracing.Light.Position := vec 0 0 0;
     raytracing.Light.Specular := rgb 1 1 1;
     raytracing.Light.Diffuse := rgb 1 1 1;
     raytracing.Light.Ambient := rgb 1 1 1 |}.

(** Two facing mirrors at [z = 5] and [z = -5]: a ray along the axis
    bounces between them for ever. *)
Definition mirrors : scene.Scene :=
  {| scene.Materials := [mirror];
     scene.Objects :=
       [object.OfPlane {| object.Plane.Material := Some 0%Z;
                          object.Plane.Normal := vec 0 0 1;
                          object.Plane.Point := vec 0 0 5 |};
        object.OfPlane {| object.Plane.Material := Some 0%Z;
                          object.Plane.Normal := vec 0 0 1;
                          object.Plane.Point := vec 0 0 (-5) |}];
     scene.Lights := [lamp];
     scene.ambientLight := rgb 1 1 1 |}.

Definition axis : raytracing.Ray :=
  {| raytracing.Position := vec 0 0 0; raytracing.Direction := vec 0 0 1 |}.

(** The Lambertian model in the shape of a [LightingModel]. *)
Definition lambertian : raytracing.LightingModel :=
  fun lights _ _ position normal material =>
    raytracing.LambertianReflectance lights position normal material.

(** A wall at [z = 10] behind a unit ball at [z = 5], lit from the
    origin. *)
Definition ball : object.Object :=
  object.OfSphere {| object.Sphere.Material := Some 0%Z;
                     object.Sphere.Radius := 1;
                     object.Sphere.Center := vec 0 0 5 |}.

Definition wall : object.Object :=
  object.OfPlane {| object.Plane.Material := Some 0%Z;
                    object.Plane.Normal := vec 0 0 (-1);
                    object.Plane.Point := vec 0 0 10 |}.

Definition shadowed : scene.Scene :=
  {| scene.Materials := [mirror];
     scene.Objects := [wall; ball];
     scene.Lights := [lamp];
     scene.ambientLight := rgb 0 0 0 |}.

(** The ball alone, without any light. *)
Definition unlit : scene.Scene :=
  {| scene.Materials := [mirror];
     scene.Objects := [ball];
     scene.Lights := [];
     scene.ambientLight := rgb 0 0 0 |}.

(** The ball with a material id that does not resolve. *)
Definition unresolved : scene.Scene :=
  {| scene.Materials := [];
     scene.Objects := [ball];
     scene.Lights := [lamp];
     scene.ambientLight := rgb 0.5 0.5 0.5 |}.

(** A camera with four samples per pixel, a lens that shoots along [z]
    from the screen point, and a tracer that reads the color off the ray. *)
Definition flat : camera.Lens :=
  {| camera.generateLightRay := fun x y _ =>
       {| raytracing.Position := vec x y 0; raytracing.Direction := vec 0 0 1 |};
     camera.GetLensName := "flat" |}.

Definition sampler : camera.Camera :=
  {| camera.imageWidth := 4;
     camera.imageHeight := 4;
     camera.output := Some (camera.NewRGBA 4 4);
     camera.AntiAliasingFactor := 2;
     camera.lens := flat;
     camera.scope :=
       {| camera.Position := vec 0 0 0; camera.Target := None; camera.Roll := 0;
          camera.Right := None; camera.Up := None; camera.Forward := None |} |}.

Definition tracer (r : raytracing.Ray) (lightStrength : float64) (depth : Z)
    : raytracing.Color :=
  rgb (raytracing.X (raytracing.Position r) + 1) 0.5 3.

(** ** Evaluations *)

Lemma Sphere_hit_front :
  object.Intersect ball axis 100 = (true, 4) /\
  object.Intersect ball axis 3 = (false, 3).
Proof. vm_compute. split; reflexivity. Qed.

Lemma FindIntersection_picks_ball :
  scene.FindIntersection shadowed axis = (true, 4, 1%Z).
Proof. vm_compute. reflexivity. Qed.

(** The ball stands between the wall point and the lamp; the near side of
    the ball sees the lamp. *)
Lemma shadow_of_ball :
  scene.visibleLights shadowed (vec 0 0 10) = [] /\
  scene.visibleLights shadowed (vec 5 0 10) = [lamp] /\
  scene.visibleLights shadowed (vec 0 0 4) = [lamp].
Proof. vm_compute. repeat split. Qed.

(** With reflectance 1.0 and depth 3 the trace needs its three nested
    calls, and no more. *)
Lemma mirrors_use_full_depth :
  scene.TraceRay 2 mirrors axis 1 3 lambertian = None /\
  scene.TraceRay 3 mirrors axis 1 3 lambertian = Some (scene.Returns (rgb 1 1 1)) /\
  scene.TraceRay 0 mirrors axis 1 0 lambertian = Some (scene.Returns (rgb 0 0 0)).
Proof. vm_compute. repeat split. Qed.

Lemma Initialize_reports_object :
  scene.Initialize unresolved =
    scene.Returns (unresolved, Some "invalid material id in object 0"%string) /\
  scene.TraceRay 0 unresolved axis 1 0 lambertian = Some scene.Panics.
Proof. vm_compute. split; reflexivity. Qed.

Lemma sampler_pixel (overflow : float64 -> Z) :
  camera.channels (camera.traceAll tracer (camera.pixelRays sampler 1 1) 15)
    = (159.375, 127.5, 255) /\
  camera.At
    (camera.renderRays tracer overflow (camera.NewRGBA 4 4)
       (camera.pixelRays sampler 1 1) 1 1 15) 1 1
    = {| camera.R := 159; camera.G := 127; camera.B := 255; camera.A := 255 |}.
Proof. vm_compute. split; reflexivity. Qed.

(** ** Instances of the theorems with hypotheses *)

Lemma TraceRay_visible_lights_shadowed :
  exists visibleLights,
    visibleLights = [lamp] /\
    scene.TraceRay 0 shadowed axis 1 0 lambertian =
    Some (scene.Returns
            (scene_spec.shade
               (lambertian visibleLights (scene.ambientLight shadowed)
                  (fst (raytracing.Normalize
                          (raytracing.Negative (raytracing.Direction axis))))
                  (scene_spec.hitPoint axis 4)
                  (object.SurfaceNormal ball (scene_spec.hitPoint axis 4)) mirror)
               1 raytracing.black)).
Proof.
  destruct (scene_spec.TraceRay_visible_lights shadowed lambertian axis 1 0 4 1 0 ball
              mirror ltac:(vm_compute; reflexivity) ltac:(reflexivity)
              ltac:(reflexivity) ltac:(reflexivity) ltac:(vm_compute; reflexivity))
    as (visibleLights & _ & Filter & Flat & _).
  exists visibleLights. split.
  - rewrite Filter. vm_compute. reflexivity.
  - apply (Flat 0%nat). lia.
Defined.

Lemma TraceRay_terminates_within_depth_mirrors :
  (0 <= 3)%Z /\
  exists out,
    scene.TraceRay (Z.to_nat 3) mirrors axis 1 3 lambertian = Some out.
Proof.
  split; [ lia | ].
  destruct (scene_spec.TraceRay_terminates_within_depth mirrors axis 1 lambertian 3
              ltac:(lia)) as [[out [E _]] _].
  exists out. exact E.
Defined.

Lemma Initialize_without_lights_unlit :
  scene.Lights unlit = [] /\
  Forall (scene_spec.resolves (scene.len (scene.Materials unlit))) (scene.Objects unlit) /\
  scene.Initialize unlit = scene.Returns (scene_spec.withoutAmbient unlit, None).
Proof.
  assert (L : scene.Lights unlit = []) by reflexivity.
  assert (V : Forall (scene_spec.resolves (scene.len (scene.Materials unlit)))
                (scene.Objects unlit)).
  { repeat constructor; cbn; lia. }
  split; [ exact L | split; [ exact V | ] ].
  exact (proj1 (scene_spec.Initialize_without_lights unlit L V)).
Defined.

Lemma renderRays_mean_clamped_sampler :
  (1 <= camera.AntiAliasingFactor sampler)%Z /\
  Z.of_nat (List.length (camera.pixelRays sampler 1 1)) = 4%Z /\
  (255 <? camera_spec.clamp
            (raytracing_spec.mean raytracing.Blue
               (map (fun ray => tracer ray 1.0 15) (camera.pixelRays sampler 1 1))))
    = false.
Proof.
  assert (F : (1 <= camera.AntiAliasingFactor sampler)%Z) by (cbn; lia).
  split; [ exact F | ].
  pose proof (camera_spec.renderRays_mean_clamped tracer (fun _ => 0%Z) sampler
                (camera.NewRGBA 4 4) 1 1 15 F) as H.
  cbv zeta in H. destruct H as (Len & _ & _ & _ & (_ & _ & Blue) & _).
  split; [ exact Len | exact Blue ].
Defined.

End examples.

(* ================================================================== *)
(** * Arithmetic of float64 *)
(* ================================================================== *)

Module Float64Arith.

Import Float64 Float64Facts.
Local Open Scope float_scope.

(** ** Multiplication and sign *)

Lemma mul_comm x y : x * y = y * x.
Proof.
  apply Prim2SF_inj. rewrite !mul_spec. unfold SF64mul, SFmul.
  destruct (Prim2SF x) as [ [ | ] | [ | ] | | [ | ] mx ex ],
           (Prim2SF y) as [ [ | ] | [ | ] | | [ | ] my ey ];
    cbn [xorb]; try reflexivity;
    (f_equal; [ f_equal; apply Pos.mul_comm | apply Z.add_comm ]).
Qed.

Lemma binary_round_aux_opp s m e l :
  binary_round_aux prec emax (negb s) m e l =
  SFopp (binary_round_aux prec emax s m e l).
Proof.
  unfold binary_round_aux.
  destruct (shr_fexp prec emax m e l) as [mrs e'].
  destruct (shr_fexp prec emax _ e' loc_Exact) as [mrs' e''].
  destruct (shr_m mrs'); [ reflexivity | | reflexivity ].
  destruct (Z.leb e'' (Z.sub emax prec)); reflexivity.
Qed.

Lemma opp_involutive x : - - x = x.
Proof.
  apply Prim2SF_inj. rewrite !opp_spec.
  destruct (Prim2SF x) as [ [ | ] | [ | ] | | [ | ] m e ]; reflexivity.
Qed.

Lemma mul_opp_l x y : (- x) * y = - (x * y).
Proof.
  apply Prim2SF_inj. rewrite opp_spec, !mul_spec, opp_spec. unfold SF64mul, SFmul.
  destruct (Prim2SF x) as [ sx | sx | | sx mx ex ],
           (Prim2SF y) as [ sy | sy | | sy my ey ];
    cbn [SFopp]; try reflexivity;
    try (destruct sx, sy; reflexivity).
  rewrite <- binary_round_aux_opp. destruct sx, sy; reflexivity.
Qed.

Lemma mul_opp_r x y : x * (- y) = - (x * y).
Proof. rewrite (mul_comm x (- y)), mul_opp_l, (mul_comm y x). reflexivity. Qed.

Lemma mul_opp_opp x y : (- x) * (- y) = x * y.
Proof. rewrite mul_opp_l, mul_opp_r, opp_involutive. reflexivity. Qed.

(** ** Finite values *)

(** [finite x]: [x] is neither NaN nor an infinity. *)
Definition finite (x : float64) : Prop := (Abs x <? infinity) = true.

Lemma finite_cases x :
  finite x ->
  (exists s, Prim2SF x = S754_zero s) \/ (exists s m e, Prim2SF x = S754_finite s m e).
Proof.
  unfold finite, Abs. rewrite ltb_spec, abs_spec.
  change (Prim2SF infinity) with (S754_infinity false).
  destruct (Prim2SF x) as [ s | s | | s m e ]; cbn; try discriminate; eauto.
Qed.

(** The difference of a finite value and itself is [+0]. *)
Lemma sub_diag x : finite x -> x - x = 0.
Proof.
  intros F. apply Prim2SF_inj. rewrite sub_spec.
  change (Prim2SF 0) with (S754_zero false). unfold SF64sub, SFsub.
  destruct (finite_cases x F) as [[s ->] | (s & m & e & ->)].
  - destruct s; reflexivity.
  - cbv zeta.
    set (a := cond_Zopp s (Z.pos (fst (shl_align m e (Z.min e e))))).
    replace (Z.sub a a) with 0%Z by (symmetry; apply Z.sub_diag).
    reflexivity.
Qed.

(** ** Zeros and NaN *)

(** [zeroish x]: [x] is a zero of either sign, or NaN. *)
Definition zeroish (x : float64) : Prop := x = 0 \/ x = neg_zero \/ x = nan.

Definition zero (x : float64) : Prop := x = 0 \/ x = neg_zero.

Lemma eqb_zero x : (x =? 0) = true -> zero x.
Proof.
  rewrite eqb_spec. change (Prim2SF 0) with (S754_zero false). unfold SFeqb.
  destruct (Prim2SF x) as [ [ | ] | [ | ] | | [ | ] m e ] eqn:E; cbn; try discriminate;
    intros _; [ right | left ]; apply Prim2SF_inj; rewrite E; reflexivity.
Qed.

Lemma zero_zeroish x : zero x -> zeroish x.
Proof. unfold zero, zeroish. tauto. Qed.

Lemma SF_zeroish x :
  (exists s, Prim2SF x = S754_zero s) \/ Prim2SF x = S754_nan -> zeroish x.
Proof.
  intros [[[ | ] E] | E]; [ right; left | left | right; right ];
    apply Prim2SF_inj; rewrite E; reflexivity.
Qed.

Lemma zeroish_SF x :
  zeroish x -> (exists s, Prim2SF x = S754_zero s) \/ Prim2SF x = S754_nan.
Proof.
  intros [-> | [-> | ->]]; [ left; exists false | left; exists true | right ]; reflexivity.
Qed.

Lemma mul_zeroish_l x y : zeroish x -> zeroish (x * y).
Proof.
  intros Z. apply SF_zeroish. rewrite mul_spec. unfold SF64mul, SFmul.
  destruct (zeroish_SF x Z) as [[s ->] | ->].
  - destruct (Prim2SF y) as [ sy | sy | | sy my ey ]; eauto.
  - eauto.
Qed.

Lemma mul_zeroish_r x y : zeroish y -> zeroish (x * y).
Proof. rewrite mul_comm. apply mul_zeroish_l. Qed.

Ltac zeroish_cases :=
  repeat match goal with
  | H : zeroish _ |- _ => destruct H as [-> | [-> | ->]]
  | H : zero _ |- _ => destruct H as [-> | ->]
  end.

Lemma add_zeroish x y : zeroish x -> zeroish y -> zeroish (x + y).
Proof. intros Hx Hy. zeroish_cases; vm_compute; auto. Qed.

Lemma sub_zeroish x y : zeroish x -> zeroish y -> zeroish (x - y).
Proof. intros Hx Hy. zeroish_cases; vm_compute; auto. Qed.

Lemma opp_zeroish x : zeroish x -> zeroish (- x).
Proof. intros Hx. zeroish_cases; vm_compute; auto. Qed.

Lemma sqrt_zeroish x : zeroish x -> zeroish (Sqrt x).
Proof. intros Hx. zeroish_cases; vm_compute; auto. Qed.

Lemma div_zeroish x y : zeroish x -> zeroish y -> x / y = nan.
Proof. intros Hx Hy. zeroish_cases; reflexivity. Qed.

Lemma div_nan_r x : x / nan = nan.
Proof.
  apply Prim2SF_inj. rewrite div_spec. change (Prim2SF nan) with S754_nan.
  unfold SF64div, SFdiv. destruct (Prim2SF x); reflexivity.
Qed.

(** A quotient by a zero is an infinity or NaN. *)
Definition unbounded (x : float64) : Prop :=
  x = infinity \/ x = neg_infinity \/ x = nan.

Lemma div_zero x y : zero y -> unbounded (x / y).
Proof.
  intros Hy.
  assert (E : exists s, Prim2SF y = S754_zero s).
  { destruct Hy as [-> | ->]; [ exists false | exists true ]; reflexivity. }
  destruct E as [sy E].
  assert (S : (exists s, Prim2SF (x / y) = S754_infinity s) \/ Prim2SF (x / y) = S754_nan).
  { rewrite div_spec, E. unfold SF64div, SFdiv.
    destruct (Prim2SF x) as [ sx | sx | | sx mx ex ]; eauto. }
  destruct S as [[[ | ] S] | S]; [ right; left | left | right; right ];
    apply Prim2SF_inj; rewrite S; reflexivity.
Qed.

(** ** Equality from the order *)

Lemma SFcompare_Eq a b :
  SFcompare a b = Some Eq -> (forall s, a <> S754_zero s) -> a = b.
Proof.
  destruct a as [ sa | [ | ] | | [ | ] ma ea ], b as [ sb | [ | ] | | [ | ] mb eb ];
    cbn; try discriminate; try reflexivity;
    try (intros _ N; exfalso; apply (N sa); reflexivity);
    intros H _;
    change (Pos.compare_cont Eq ma mb) with (Pos.compare ma mb) in H;
    destruct (Z.compare_spec ea eb) as [ -> | | ]; try discriminate;
    destruct (Pos.compare_spec ma mb) as [ -> | | ]; try discriminate;
    reflexivity.
Qed.

(** Two values above zero that are each below or equal to the other are
    the same value. *)
Lemma leb_antisym x y :
  (0 <? x) = true -> (x <=? y) = true -> (y <=? x) = true -> x = y.
Proof.
  intros Pos Lxy Lyx. apply Prim2SF_inj.
  apply leb_fcmp in Lxy, Lyx. apply ltb_fcmp in Pos. unfold fcmp in *.
  rewrite (SFcompare_antisym (Prim2SF x) (Prim2SF y)) in Lyx.
  change (Prim2SF 0) with (S754_zero false) in Pos.
  apply SFcompare_Eq.
  - destruct (SFcompare (Prim2SF x) (Prim2SF y)) as [[ | | ] | ]; cbn in Lyx;
      try reflexivity; destruct Lxy, Lyx; discriminate.
  - intros s E. rewrite E in Pos. discriminate.
Qed.

End Float64Arith.

(* ================================================================== *)
(** * Further properties of pkg/raytracing *)
(* ================================================================== *)

Module raytracing_props.

Import Float64 Float64Facts Float64Arith.
Local Open Scope float_scope.

Abbreviation Vector := raytracing.Vector.
Abbreviation Color := raytracing.Color.
Abbreviation Light := raytracing.Light.
Abbreviation Material := raytracing.Material.

(** ** Dot, Negative, Magnitude *)

(** X1: [Dot] is symmetric in its two vectors and unchanged when both are
    negated; hence [Magnitude] does not see the sign of a vector. *)
Theorem Dot_symmetric (v w : Vector) :
  raytracing.Dot v w = raytracing.Dot w v /\
  raytracing.Dot (raytracing.Negative v) (raytracing.Negative w) = raytracing.Dot v w /\
  raytracing.Magnitude (raytracing.Negative v) = raytracing.Magnitude v.
Proof.
  assert (N : forall a b : Vector,
            raytracing.Dot (raytracing.Negative a) (raytracing.Negative b)
            = raytracing.Dot a b).
  { intros a b. unfold raytracing.Dot, raytracing.Negative.
    cbn [raytracing.X raytracing.Y raytracing.Z]. rewrite !mul_opp_opp. reflexivity. }
  split; [ | split ].
  - unfold raytracing.Dot.
    rewrite (mul_comm (raytracing.X v)), (mul_comm (raytracing.Y v)),
      (mul_comm (raytracing.Z v)). reflexivity.
  - apply N.
  - unfold raytracing.Magnitude. rewrite N. reflexivity.
Qed.

Lemma Magnitude_Negative (v : Vector) :
  raytracing.Magnitude (raytracing.Negative v) = raytracing.Magnitude v.
Proof.
  unfold raytracing.Magnitude, raytracing.Dot, raytracing.Negative.
  cbn [raytracing.X raytracing.Y raytracing.Z]. rewrite !mul_opp_opp. reflexivity.
Qed.

Lemma Scale_Negative (v : Vector) (k : float64) :
  raytracing.Scale (raytracing.Negative v) k = raytracing.Negative (raytracing.Scale v k).
Proof.
  unfold raytracing.Scale, raytracing.Negative.
  cbn [raytracing.X raytracing.Y raytracing.Z]. rewrite !mul_opp_l. reflexivity.
Qed.

(** X2: [Normalize] commutes with [Negative]: the negated vector
    normalizes exactly when the vector does, to the negated result.  (So
    the viewer direction of [TraceRay] exists exactly when the direction of
    the ray normalizes.) *)
Theorem Normalize_Negative (v : Vector) :
  raytracing.Normalize (raytracing.Negative v) =
  (raytracing.Negative (fst (raytracing.Normalize v)), snd (raytracing.Normalize v)).
Proof.
  unfold raytracing.Normalize. rewrite Magnitude_Negative.
  destruct (raytracing.Magnitude v <=? 0.0); cbn [fst snd]; [ reflexivity | ].
  rewrite Scale_Negative. reflexivity.
Qed.

(** ** LambertianReflectance *)

Section LambertianSpec.

Variables (position normal : Vector) (material : Material).

(** A light counts when it is front-facing and its direction
    normalizes. *)
Definition lit (light : Light) : bool :=
  raytracing_spec.frontFacing position normal light
  && snd (raytracing.Normalize
            (raytracing.Subtract (raytracing.Light.Position light) position)).

(** The Lambert term of one light, for one channel. *)
Definition lambertTerm (ch : Color -> float64) (light : Light) : float64 :=
  raytracing.Dot (raytracing_spec.lightVector position light) normal
  * ch (raytracing.Light.Diffuse light) * ch (raytracing.Material.Diffuse material).

Lemma lambertianStep_cases (color : Color) (light : Light) :
  raytracing.lambertianStep position normal material color light =
  if lit light
  then {| raytracing.Red := raytracing.Red color + lambertTerm raytracing.Red light;
          raytracing.Green := raytracing.Green color + lambertTerm raytracing.Green light;
          raytracing.Blue := raytracing.Blue color + lambertTerm raytracing.Blue light |}
  else color.
Proof.
  unfold raytracing.lambertianStep, lit, raytracing_spec.frontFacing, lambertTerm,
    raytracing_spec.lightVector.
  destruct (raytracing.Dot normal
              (raytracing.Subtract (raytracing.Light.Position light) position) <=? 0.0);
    cbn [negb andb]; [ reflexivity | ].
  destruct (raytracing.Normalize
              (raytracing.Subtract (raytracing.Light.Position light) position))
    as [lightVec ok].
  cbn [fst snd]. destruct ok; reflexivity.
Qed.

Lemma lambertian_loop (ch : Color -> float64) (lights : list Light) :
  (ch = raytracing.Red \/ ch = raytracing.Green \/ ch = raytracing.Blue) ->
  forall color : Color,
  ch (fold_left (raytracing.lambertianStep position normal material) lights color) =
  fold_left PrimFloat.add (map (lambertTerm ch) (filter lit lights)) (ch color).
Proof.
  intros Hch. induction lights as [ | light lights IH]; intros color; [ reflexivity | ].
  cbn [fold_left filter]. rewrite IH, lambertianStep_cases.
  destruct (lit light); [ | reflexivity ].
  cbn [map fold_left]. destruct Hch as [-> | [-> | ->]]; reflexivity.
Qed.

End LambertianSpec.

(** X3: each channel of [LambertianReflectance] is the sum, in list
    order, of [(L.N) * lightDiffuse * materialDiffuse] over the lights
    that are front-facing and whose direction normalizes; the other lights
    are skipped, no ambient or specular component of light or material
    enters, and without lights the result is the zero color. *)
Theorem LambertianReflectance_sum_of_terms (lights : list Light)
    (position normal : Vector) (material : Material) :
  let lambert := raytracing.LambertianReflectance lights position normal material in
  let channel ch :=
    raytracing_spec.fsum
      (map (lambertTerm position normal material ch)
           (filter (lit position normal) lights)) in
  raytracing.Red lambert = channel raytracing.Red /\
  raytracing.Green lambert = channel raytracing.Green /\
  raytracing.Blue lambert = channel raytracing.Blue /\
  raytracing.LambertianReflectance [] position normal material = raytracing.black.
Proof.
  cbv zeta. unfold raytracing.LambertianReflectance, raytracing_spec.fsum.
  rewrite !lambertian_loop by auto. repeat split.
Qed.

(** ** A light at the surface point *)

Lemma Subtract_diag (p : Vector) :
  finite (raytracing.X p) -> finite (raytracing.Y p) -> finite (raytracing.Z p) ->
  raytracing.Subtract p p = {| raytracing.X := 0; raytracing.Y := 0; raytracing.Z := 0 |}.
Proof.
  intros Fx Fy Fz. unfold raytracing.Subtract. rewrite !sub_diag by assumption.
  reflexivity.
Qed.

Lemma Dot_zero_r (v : Vector) :
  zeroish (raytracing.Dot v {| raytracing.X := 0; raytracing.Y := 0; raytracing.Z := 0 |}).
Proof.
  unfold raytracing.Dot. cbn [raytracing.X raytracing.Y raytracing.Z].
  repeat apply add_zeroish; apply mul_zeroish_r; left; reflexivity.
Qed.

(** X4: a light placed exactly at the surface point (with finite
    coordinates) contributes nothing: the loops of both
    [LambertianReflectance] and [PhongReflectance] leave the accumulated
    color as it is, whatever the normal, the viewer and the material. *)
Theorem coincident_light_skipped (Pow : float64 -> float64 -> float64)
    (viewer position normal : Vector) (material : Material)
    (color : Color) (light : Light) :
  raytracing.Light.Position light = position ->
  finite (raytracing.X position) -> finite (raytracing.Y position) ->
  finite (raytracing.Z position) ->
  raytracing.lambertianStep position normal material color light = color /\
  raytracing.phongStep Pow viewer position normal material color light = color.
Proof.
  intros At Fx Fy Fz.
  unfold raytracing.lambertianStep, raytracing.phongStep.
  rewrite At, (Subtract_diag position Fx Fy Fz).
  destruct (Dot_zero_r normal) as [E | [E | E]]; rewrite E; split; reflexivity.
Qed.

End raytracing_props.

(* ================================================================== *)
(** * Further properties of pkg/raytracing/object *)
(* ================================================================== *)

Module object_props.

Import Float64 Float64Facts Float64Arith.
Local Open Scope float_scope.

Abbreviation Vector := raytracing.Vector.
Abbreviation Ray := raytracing.Ray.
Abbreviation Object := object.Object.

(** ** The box *)

(** X5: [Box.Initialize] leaves the corners in order on every axis (no
    coordinate of [MaxCorner] is below that of [MinCorner]), keeps the
    material, and running it again changes nothing. *)
Theorem Box_Initialize_orders_corners (b : object.Box.t) :
  let b' := object.Box.Initialize b in
  ((raytracing.X (object.Box.MaxCorner b') <? raytracing.X (object.Box.MinCorner b')) = false /\
   (raytracing.Y (object.Box.MaxCorner b') <? raytracing.Y (object.Box.MinCorner b')) = false /\
   (raytracing.Z (object.Box.MaxCorner b') <? raytracing.Z (object.Box.MinCorner b')) = false) /\
  object.Box.Material b' = object.Box.Material b /\
  object.Box.Initialize b' = b'.
Proof.
  cbv zeta. unfold object.Box.Initialize.
  destruct (raytracing.X (object.Box.MaxCorner b) <? raytracing.X (object.Box.MinCorner b))
    eqn:Ex;
  destruct (raytracing.Y (object.Box.MaxCorner b) <? raytracing.Y (object.Box.MinCorner b))
    eqn:Ey;
  destruct (raytracing.Z (object.Box.MaxCorner b) <? raytracing.Z (object.Box.MinCorner b))
    eqn:Ez;
  cbn [object.Box.MinCorner object.Box.MaxCorner object.Box.Material
       raytracing.X raytracing.Y raytracing.Z];
  rewrite ?Ex, ?Ey, ?Ez, ?(ltb_asym _ _ Ex), ?(ltb_asym _ _ Ey), ?(ltb_asym _ _ Ez);
  repeat split.
Qed.

(** The six directions of the axes. *)
Definition axisDirections : list Vector :=
  [ {| raytracing.X := 1; raytracing.Y := 0; raytracing.Z := 0 |};
    {| raytracing.X := -1; raytracing.Y := 0; raytracing.Z := 0 |};
    {| raytracing.X := 0; raytracing.Y := 1; raytracing.Z := 0 |};
    {| raytracing.X := 0; raytracing.Y := -1; raytracing.Z := 0 |};
    {| raytracing.X := 0; raytracing.Y := 0; raytracing.Z := 1 |};
    {| raytracing.X := 0; raytracing.Y := 0; raytracing.Z := -1 |} ].

(** X6: [Box.SurfaceNormal] returns one of the six axis directions for
    every box and every point (on the surface or not), so its result
    always has magnitude 1. *)
Theorem Box_SurfaceNormal_axis (b : object.Box.t) (point : Vector) :
  In (object.Box.SurfaceNormal b point) axisDirections /\
  raytracing.Magnitude (object.Box.SurfaceNormal b point) = 1.
Proof.
  unfold object.Box.SurfaceNormal, object.Box.signum. cbv zeta.
  repeat match goal with
  | |- context [if ?c then _ else _] => destruct c
  end; split; try reflexivity; cbn; tauto.
Qed.

(** ** Monotonicity in the range *)

(** X7: for a sphere, plane or box, enlarging [maxRange] keeps a reported
    hit as it is, and shrinking it keeps a miss a miss: the range only
    cuts hits off, it never moves or creates one. *)
Theorem Intersect_monotone_in_range (o : Object) (r : Ray) (m m' : float64) :
  (m <=? m') = true ->
  (forall t, object.Intersect o r m = (true, t) -> object.Intersect o r m' = (true, t)) /\
  (fst (object.Intersect o r m') = false -> object.Intersect o r m = (false, m)).
Proof.
  intros Le. rewrite !object_spec.Intersect_range.
  destruct (object_spec.nearestHit o r) as [to | ]; [ | split; [ discriminate | reflexivity ] ].
  destruct (to <? m) eqn:L.
  - rewrite (ltb_leb_trans _ _ _ L Le). split; [ intros t H; exact H | discriminate ].
  - split; [ discriminate | reflexivity ].
Qed.

(** ** Rays without a direction *)

Lemma Dot_zero_l (d v : Vector) :
  zero (raytracing.X d) -> zero (raytracing.Y d) -> zero (raytracing.Z d) ->
  zeroish (raytracing.Dot d v).
Proof.
  intros Zx Zy Zz. unfold raytracing.Dot.
  repeat apply add_zeroish; apply mul_zeroish_l; apply zero_zeroish; assumption.
Qed.

Lemma Sphere_no_direction (s : object.Sphere.t) (r : Ray) (m : float64) :
  zero (raytracing.X (raytracing.Direction r)) ->
  zero (raytracing.Y (raytracing.Direction r)) ->
  zero (raytracing.Z (raytracing.Direction r)) ->
  object.Sphere.Intersect s r m = (false, m).
Proof.
  intros Zx Zy Zz. unfold object.Sphere.Intersect. cbv zeta.
  set (A := raytracing.Dot (raytracing.Direction r) (raytracing.Direction r)).
  set (B := 2 * raytracing.Dot (raytracing.Direction r)
                  (raytracing.Subtract (raytracing.Position r) (object.Sphere.Center s))).
  set (D := B * B - 4 * A * _).
  assert (ZA : zeroish A) by (apply Dot_zero_l; assumption).
  assert (ZB : zeroish B) by (apply mul_zeroish_r, Dot_zero_l; assumption).
  assert (ZD : zeroish D).
  { apply sub_zeroish; [ apply mul_zeroish_l; assumption | ].
    apply mul_zeroish_l, mul_zeroish_r. assumption. }
  assert (Z2A : zeroish (2 * A)) by (apply mul_zeroish_r; assumption).
  destruct (D <? 0.0); [ reflexivity | ].
  rewrite (div_zeroish (- B + Sqrt D) (2 * A)), (div_zeroish (- B - Sqrt D) (2 * A));
    try assumption;
    try (apply add_zeroish || apply sub_zeroish);
    try apply opp_zeroish; try apply sqrt_zeroish; try assumption.
  reflexivity.
Qed.

Lemma Plane_no_direction (p : object.Plane.t) (r : Ray) (m : float64) :
  zero (raytracing.X (raytracing.Direction r)) ->
  zero (raytracing.Y (raytracing.Direction r)) ->
  zero (raytracing.Z (raytracing.Direction r)) ->
  object.Plane.Intersect p r m = (false, m).
Proof.
  intros Zx Zy Zz. unfold object.Plane.Intersect. cbv zeta.
  destruct (Dot_zero_l (raytracing.Direction r) (object.Plane.Normal p) Zx Zy Zz)
    as [E | [E | E]]; rewrite E; try reflexivity.
  change (Abs nan <? 1e-8) with false. cbv iota. rewrite div_nan_r. reflexivity.
Qed.

Lemma Box_no_direction (b : object.Box.t) (r : Ray) (m : float64) :
  zero (raytracing.X (raytracing.Direction r)) ->
  zero (raytracing.Y (raytracing.Direction r)) ->
  zero (raytracing.Z (raytracing.Direction r)) ->
  object.Box.Intersect b r m = (false, m).
Proof.
  intros Zx Zy Zz. unfold object.Box.Intersect. cbv zeta.
  set (x1 := (_ - _) / raytracing.X (raytracing.Direction r)).
  set (x2 := (_ - _) / raytracing.X (raytracing.Direction r)).
  set (y1 := (_ - _) / raytracing.Y (raytracing.Direction r)).
  set (y2 := (_ - _) / raytracing.Y (raytracing.Direction r)).
  set (z1 := (_ - _) / raytracing.Z (raytracing.Direction r)).
  set (z2 := (_ - _) / raytracing.Z (raytracing.Direction r)).
  assert (U : forall a d, zero d -> unbounded (a / d)) by (intros; apply div_zero; assumption).
  destruct (U _ _ Zx : unbounded x1) as [-> | [-> | ->]];
  destruct (U _ _ Zx : unbounded x2) as [-> | [-> | ->]];
  destruct (U _ _ Zy : unbounded y1) as [-> | [-> | ->]];
  destruct (U _ _ Zy : unbounded y2) as [-> | [-> | ->]];
  destruct (U _ _ Zz : unbounded z1) as [-> | [-> | ->]];
  destruct (U _ _ Zz : unbounded z2) as [-> | [-> | ->]];
  reflexivity.
Qed.

Lemma Object_no_direction (o : Object) (r : Ray) (m : float64) :
  zero (raytracing.X (raytracing.Direction r)) ->
  zero (raytracing.Y (raytracing.Direction r)) ->
  zero (raytracing.Z (raytracing.Direction r)) ->
  object.Intersect o r m = (false, m).
Proof.
  intros Zx Zy Zz. destruct o as [s | p | b]; cbn [object.Intersect].
  - apply Sphere_no_direction; assumption.
  - apply Plane_no_direction; assumption.
  - apply Box_no_direction; assumption.
Qed.

(** X8: a ray whose direction is the zero vector (each component a zero
    of either sign) intersects no sphere, plane or box, whatever its
    origin and the range. *)
Theorem Intersect_no_direction (o : Object) (r : Ray) (m : float64) :
  (raytracing.X (raytracing.Direction r) =? 0) = true ->
  (raytracing.Y (raytracing.Direction r) =? 0) = true ->
  (raytracing.Z (raytracing.Direction r) =? 0) = true ->
  object.Intersect o r m = (false, m).
Proof.
  intros Zx Zy Zz. apply eqb_zero in Zx, Zy, Zz.
  apply Object_no_direction; assumption.
Qed.

End object_props.

(* ================================================================== *)
(** * Further properties of internal/scene *)
(* ================================================================== *)

From Stdlib Require Import Permutation.

Module scene_props.

Import Float64 Float64Facts Float64Arith.
Local Open Scope float_scope.

Abbreviation Vector := raytracing.Vector.
Abbreviation Ray := raytracing.Ray.
Abbreviation Color := raytracing.Color.
Abbreviation Light := raytracing.Light.
Abbreviation Object := object.Object.
Abbreviation Scene := scene.Scene.

(** ** Ties and order in FindIntersection *)

Lemma nearestHit_number (o : Object) (r : Ray) (t : float64) :
  object_spec.nearestHit o r = Some t -> number t.
Proof.
  intros H. destruct (object_spec.nearestHit_bounds o r t H) as [_ L].
  apply (ltb_number _ _ L).
Qed.

(** Every object the scan passed before the one it returns has its hit
    strictly beyond the returned one. *)
Lemma scan_earlier (r : Ray) (objects : list Object) :
  forall i t0 cur0 t cur,
  number t0 -> (cur0 < i)%Z ->
  scene.scan r objects i t0 cur0 = (t, cur) -> (i <= cur)%Z ->
  forall k o t',
    (Z.of_nat k < cur - i)%Z -> nth_error objects k = Some o ->
    object_spec.nearestHit o r = Some t' -> (t <? t') = true.
Proof.
  induction objects as [ | o rest IH]; intros i t0 cur0 t cur N0 C0 H Le k o' t' Hk Nth Ho'.
  { cbn in H. injection H as <- <-. lia. }
  cbn [scene.scan] in H. rewrite object_spec.Intersect_range in H.
  assert (Step : forall t1 c1,
            number t1 -> (c1 < i + 1)%Z ->
            scene.scan r rest (i + 1) t1 c1 = (t, cur) ->
            (forall x, object_spec.nearestHit o r = Some x -> (t <? t1) = true ->
                       (t <? x) = true) ->
            (t <? t') = true).
  { intros t1 c1 N1 C1 H1 Head.
    assert (Found : (t <? t1) = true).
    { destruct (scene_spec.scan_spec r rest (i + 1)%Z t1 c1 N1)
        as [[E _] | (t2 & cur2 & o2 & E & _ & _ & _ & Lt & _)];
        rewrite E in H1; injection H1 as <- <-; [ lia | assumption ]. }
    destruct k as [ | k'].
    - cbn in Nth. injection Nth as <-. apply Head; assumption.
    - cbn in Nth. apply (IH (i + 1)%Z t1 c1 t cur N1 C1 H1 ltac:(lia) k' o' t');
        try assumption; lia. }
  destruct (object_spec.nearestHit o r) as [to | ] eqn:No.
  - pose proof (nearestHit_number o r to No) as Nto.
    destruct (to <? t0) eqn:L.
    + apply (Step to i Nto ltac:(lia) H). intros x [= <-] F. exact F.
    + apply (Step t0 cur0 N0 ltac:(lia) H). intros x [= <-] F.
      eapply ltb_leb_trans; [ exact F | ].
      apply number_not_ltb_leb; assumption.
  - apply (Step t0 cur0 N0 ltac:(lia) H). intros x; discriminate.
Qed.

(** X9: ties go to the first object.  Every object listed before the one
    [FindIntersection] returns has, for any range, a hit strictly farther
    than the returned distance (or none); so among objects at the same
    nearest distance the earliest in the list is returned. *)
Theorem FindIntersection_first_of_nearest (s : Scene) (r : Ray)
    (i : Z) (o : Object) (m t' : float64) :
  fst (fst (scene.FindIntersection s r)) = true ->
  (0 <= i < snd (scene.FindIntersection s r))%Z ->
  scene.index (scene.Objects s) i = Some o ->
  object.Intersect o r m = (true, t') ->
  (snd (fst (scene.FindIntersection s r)) <? t') = true.
Proof.
  unfold scene.FindIntersection.
  destruct (scene.scan r (scene.Objects s) 0 20000 (-1)) as [t cur] eqn:E.
  cbn [fst snd]. intros _ Bi Idx Hit.
  apply scene_spec.Intersect_hit in Hit. destruct Hit as [Ho _].
  unfold scene.index in Idx. destruct (i <? 0)%Z eqn:Neg; [ lia | ].
  apply (scan_earlier r (scene.Objects s) 0%Z 20000 (-1)%Z t cur
           scene_spec.number_20000 ltac:(lia) E ltac:(lia) (Z.to_nat i) o t');
    try assumption; lia.
Qed.

(** X10: the distance [FindIntersection] finds does not depend on the
    order of the objects: two scenes whose object lists are permutations
    of each other agree on whether a ray intersects and on the returned
    distance (the returned index may differ). *)
Theorem FindIntersection_order_independent (s s' : Scene) (r : Ray) :
  Permutation (scene.Objects s) (scene.Objects s') ->
  fst (scene.FindIntersection s r) = fst (scene.FindIntersection s' r).
Proof.
  intros P.
  destruct (scene_spec.FindIntersection_cases s r)
    as [[E F] | (t & cur & o & E & Idx & Ho & Lt & F)];
  destruct (scene_spec.FindIntersection_cases s' r)
    as [[E' F'] | (t' & cur' & o' & E' & Idx' & Ho' & Lt' & F')];
  rewrite E, E'; cbn [fst]; try reflexivity.
  - exfalso. apply scene_spec.index_In in Idx'.
    apply (Permutation_in _ (Permutation_sym P)) in Idx'.
    rewrite Forall_forall in F. rewrite (F o' Idx' t' Ho') in Lt'. discriminate.
  - exfalso. apply scene_spec.index_In in Idx.
    apply (Permutation_in _ P) in Idx.
    rewrite Forall_forall in F'. rewrite (F' o Idx t Ho) in Lt. discriminate.
  - apply scene_spec.index_In in Idx, Idx'.
    rewrite Forall_forall in F, F'.
    assert (L1 : (t <=? t') = true).
    { apply (F o'); [ apply (Permutation_in _ (Permutation_sym P)) | ]; assumption. }
    assert (L2 : (t' <=? t) = true).
    { apply (F' o); [ apply (Permutation_in _ P) | ]; assumption. }
    assert (Pos : (0 <? t) = true).
    { apply (ltb_trans 0 1e-4 t); [ reflexivity | ].
      apply (object_spec.nearestHit_bounds o r t Ho). }
    rewrite (leb_antisym t t' Pos L1 L2). reflexivity.
Qed.

(** X11: a ray whose direction is the zero vector finds no intersection
    in any scene; so in the shadow test of [TraceRay] a light of the scene
    placed exactly at the hit point (with finite coordinates) is always
    among the visible lights. *)
Theorem coincident_light_visible (s : Scene) (p : Vector) (light : Light) :
  In light (scene.Lights s) ->
  raytracing.Light.Position light = p ->
  finite (raytracing.X p) -> finite (raytracing.Y p) -> finite (raytracing.Z p) ->
  scene.FindIntersection s (scene_spec.shadowRay p light) = (false, 20000, (-1)%Z) /\
  In light (scene.visibleLights s p).
Proof.
  intros I At Fx Fy Fz.
  assert (Miss : scene.FindIntersection s (scene_spec.shadowRay p light)
                 = (false, 20000, (-1)%Z)).
  { unfold scene.FindIntersection. rewrite scene_spec.scan_all_miss; [ reflexivity | ].
    apply Forall_forall. intros o _ t' H. exfalso.
    unfold object_spec.nearestHit in H.
    rewrite object_props.Object_no_direction in H; [ discriminate | | | ];
      unfold scene_spec.shadowRay; cbn [raytracing.Direction];
      rewrite At, (raytracing_props.Subtract_diag p Fx Fy Fz); left; reflexivity. }
  split; [ exact Miss | ].
  rewrite scene_spec.visibleLights_filter. apply filter_In. split; [ assumption | ].
  unfold scene_spec.unoccluded. rewrite Miss. reflexivity.
Qed.

(** ** Initialize *)

(** X12: [Initialize] is idempotent: on the scene a first call that
    returned leaves behind, a second call returns the same scene and the
    same error. *)
Theorem Initialize_idempotent (s s' : Scene) (e : option string) :
  scene.Initialize s = scene.Returns (s', e) ->
  scene.Initialize s' = scene.Returns (s', e).
Proof.
  unfold scene.Initialize.
  destruct (scene.firstInvalid (scene.len (scene.Materials s)) (scene.Objects s) 0)
    as [[i | ] | ] eqn:E; [ | | discriminate ]; intros [= <- <-];
    cbn [scene.Materials scene.Objects scene.Lights]; rewrite E; reflexivity.
Qed.

(** What the validation loop found when it stopped at object [j]: the
    objects before it resolve. *)
Definition firstStop (materials : Z) (objects : list Object) (i j : Z) (o : Object)
    : Prop :=
  (i <= j)%Z /\
  nth_error objects (Z.to_nat (j - i)) = Some o /\
  forall k o', (k < Z.to_nat (j - i))%nat -> nth_error objects k = Some o' ->
               scene_spec.resolves materials o'.

Lemma firstStop_here (materials : Z) (o : Object) (rest : list Object) (i : Z) :
  firstStop materials (o :: rest) i i o.
Proof.
  unfold firstStop. replace (i - i)%Z with 0%Z by lia.
  split; [ lia | split; [ reflexivity | ] ]. intros k o' Hk. cbn in Hk. lia.
Qed.

Lemma firstStop_later (materials : Z) (o : Object) (rest : list Object) (i j : Z)
    (o1 : Object) :
  scene_spec.resolves materials o ->
  firstStop materials rest (i + 1) j o1 ->
  firstStop materials (o :: rest) i j o1.
Proof.
  intros R (Le & Nth & Before). unfold firstStop.
  replace (Z.to_nat (j - i)) with (S (Z.to_nat (j - (i + 1)))) by lia.
  split; [ lia | split; [ exact Nth | ] ].
  intros k o' Hk Hn. destruct k as [ | k'].
  - cbn in Hn. injection Hn as <-. exact R.
  - cbn in Hn. apply (Before k' o'); [ lia | assumption ].
Qed.

Lemma firstInvalid_Some (materials : Z) (objects : list Object) :
  forall i j, scene.firstInvalid materials objects i = scene.Returns (Some j) ->
  exists o materialID,
    firstStop materials objects i j o /\
    object.MaterialID o = Some materialID /\
    ~ (0 <= materialID < materials)%Z.
Proof.
  induction objects as [ | o rest IH]; intros i j; cbn [scene.firstInvalid];
    [ discriminate | ].
  destruct (object.MaterialID o) as [id | ] eqn:M; [ | discriminate ].
  destruct ((id <? 0)%Z || (id >=? materials)%Z) eqn:E.
  - intros [= <-]. exists o, id.
    split; [ apply firstStop_here | split; [ exact M | ] ].
    apply orb_true_iff in E. destruct E as [E | E]; lia.
  - intros H. destruct (IH (i + 1)%Z j H) as (o1 & id1 & Stop & M1 & Bad).
    exists o1, id1. split; [ | split; assumption ].
    apply firstStop_later; [ | exact Stop ].
    unfold scene_spec.resolves. rewrite M. apply orb_false_iff in E. lia.
Qed.

Lemma firstInvalid_Panics (materials : Z) (objects : list Object) :
  forall i, scene.firstInvalid materials objects i = scene.Panics ->
  exists j o, firstStop materials objects i j o /\ object.MaterialID o = None.
Proof.
  induction objects as [ | o rest IH]; intros i; cbn [scene.firstInvalid];
    [ discriminate | ].
  destruct (object.MaterialID o) as [id | ] eqn:M.
  - destruct ((id <? 0)%Z || (id >=? materials)%Z) eqn:E; [ discriminate | ].
    intros H. destruct (IH (i + 1)%Z H) as (j & o1 & Stop & M1).
    exists j, o1. split; [ | exact M1 ].
    apply firstStop_later; [ | exact Stop ].
    unfold scene_spec.resolves. rewrite M. apply orb_false_iff in E. lia.
  - intros _. exists i, o. split; [ apply firstStop_here | exact M ].
Qed.

Lemma firstStop_index (materials : Z) (objects : list Object) (j : Z) (o : Object) :
  firstStop materials objects 0 j o ->
  scene.index objects j = Some o /\
  forall k o', (0 <= k < j)%Z -> scene.index objects k = Some o' ->
               scene_spec.resolves materials o'.
Proof.
  intros (Le & Nth & Before). replace (j - 0)%Z with j in * by lia. split.
  - unfold scene.index. destruct (j <? 0)%Z eqn:N; [ lia | assumption ].
  - intros k o' Bk Idx. unfold scene.index in Idx.
    destruct (k <? 0)%Z eqn:N; [ lia | ].
    apply (Before (Z.to_nat k) o'); [ lia | assumption ].
Qed.

(** X13: how [Initialize] ends.  Without error, every material id
    resolves; with an error, the message is ["invalid material id in
    object i"] for the first object [i] of the list that does not resolve,
    and that object has a material whose id is out of range; it panics
    when the first object that does not resolve has no material.  In each
    case every object before that one resolves. *)
Theorem Initialize_names_first_invalid (s : Scene) :
  match scene.Initialize s with
  | scene.Returns (_, None) =>
      Forall (scene_spec.resolves (scene.len (scene.Materials s))) (scene.Objects s)
  | scene.Returns (_, Some msg) =>
      exists i o materialID,
        msg = ("invalid material id in object " ++ scene.itoa i)%string /\
        scene.index (scene.Objects s) i = Some o /\
        object.MaterialID o = Some materialID /\
        ~ (0 <= materialID < scene.len (scene.Materials s))%Z /\
        forall j o', (0 <= j < i)%Z -> scene.index (scene.Objects s) j = Some o' ->
                     scene_spec.resolves (scene.len (scene.Materials s)) o'
  | scene.Panics =>
      exists i o,
        scene.index (scene.Objects s) i = Some o /\
        object.MaterialID o = None /\
        forall j o', (0 <= j < i)%Z -> scene.index (scene.Objects s) j = Some o' ->
                     scene_spec.resolves (scene.len (scene.Materials s)) o'
  end.
Proof.
  unfold scene.Initialize.
  destruct (scene.firstInvalid (scene.len (scene.Materials s)) (scene.Objects s) 0)
    as [[i | ] | ] eqn:E.
  - destruct (firstInvalid_Some _ _ _ _ E) as (o & id & Stop & M & Bad).
    destruct (firstStop_index _ _ _ _ Stop) as [Idx Before].
    exists i, o, id. split; [ reflexivity | ].
    split; [ exact Idx | split; [ exact M | split; [ exact Bad | exact Before ] ] ].
  - apply (scene_spec.firstInvalid_None _ _ 0%Z). assumption.
  - destruct (firstInvalid_Panics _ _ _ E) as (i & o & Stop & M).
    destruct (firstStop_index _ _ _ _ Stop) as [Idx Before].
    exists i, o. split; [ exact Idx | split; [ exact M | exact Before ] ].
Qed.

Lemma addAmbient_loop (ch : Color -> float64) (lights : list Light) :
  (ch = raytracing.Red \/ ch = raytracing.Green \/ ch = raytracing.Blue) ->
  forall ambient : Color,
  ch (fold_left scene.addAmbient lights ambient) =
  fold_left PrimFloat.add (map (fun light => ch (raytracing.Light.Ambient light)) lights)
    (ch ambient).
Proof.
  intros Hch. induction lights as [ | light lights IH]; intros ambient; [ reflexivity | ].
  cbn [fold_left map]. rewrite IH.
  destruct Hch as [-> | [-> | ->]]; reflexivity.
Qed.

(** X14: when every material id resolves, [Initialize] returns without
    error the scene with the same materials, objects and lights, in which
    each channel of the ambient light is the sum (in list order) of that
    channel of the lights' ambient colors divided by the number of lights,
    whatever the ambient light was before. *)
Theorem Initialize_ambient_mean (s : Scene) :
  Forall (scene_spec.resolves (scene.len (scene.Materials s))) (scene.Objects s) ->
  let mean ch :=
    raytracing_spec.fsum
      (map (fun light => ch (raytracing.Light.Ambient light)) (scene.Lights s))
    / of_int (scene.len (scene.Lights s)) in
  scene.Initialize s =
  scene.Returns
    ({| scene.Materials := scene.Materials s;
        scene.Objects := scene.Objects s;
        scene.Lights := scene.Lights s;
        scene.ambientLight :=
          {| raytracing.Red := mean raytracing.Red;
             raytracing.Green := mean raytracing.Green;
             raytracing.Blue := mean raytracing.Blue |} |}, None).
Proof.
  intros Valid. cbv zeta. unfold scene.Initialize.
  rewrite (proj2 (scene_spec.firstInvalid_None _ _ 0%Z) Valid).
  unfold raytracing_spec.fsum. rewrite !addAmbient_loop by auto. reflexivity.
Qed.

(** ** Initialize, then TraceRay *)

(** X30: on the scene a successful [Initialize] leaves behind, [TraceRay]
    never panics, whatever the ray, the depth and the lighting model: the
    object it hits has a material, and the index of that material is
    within the list of materials. *)
Theorem TraceRay_safe_after_Initialize (s s' : Scene) :
  scene.Initialize s = scene.Returns (s', None) ->
  forall lighting calls r lightStrength remainingDepth,
  scene.TraceRay calls s' r lightStrength remainingDepth lighting <> Some scene.Panics.
Proof.
  intros Ok lighting. apply scene_spec.TraceRay_no_panic.
  destruct (scene_spec.Initialize_keeps_lists s s' None Ok) as (-> & -> & _).
  apply scene_spec.Initialize_success. exists s'. exact Ok.
Qed.

End scene_props.

(* ================================================================== *)
(** * Opposite values of float64 *)
(* ================================================================== *)

Module Float64Opp.

Import Float64 Float64Facts Float64Arith.
Local Open Scope float_scope.

(** [SFoppish a b]: [b] is the opposite of [a], or both are zeros. *)
Definition SFoppish (a b : spec_float) : Prop :=
  b = SFopp a \/ ((exists s, a = S754_zero s) /\ (exists s, b = S754_zero s)).

Definition oppish (x y : float64) : Prop := SFoppish (Prim2SF x) (Prim2SF y).

Lemma binary_normalize_opp m e :
  binary_normalize prec emax (Z.opp m) e false =
  match m with
  | Z0 => S754_zero false
  | _ => SFopp (binary_normalize prec emax m e false)
  end.
Proof.
  destruct m as [ | p | p ]; cbn [Z.opp binary_normalize]; [ reflexivity | | ];
    unfold binary_round; destruct (shl_align p e _) as [mz ez].
  - apply (binary_round_aux_opp false).
  - rewrite <- (binary_round_aux_opp true). reflexivity.
Qed.

Lemma SFadd_opp a b :
  SFoppish (SFadd prec emax a b) (SFadd prec emax (SFopp a) (SFopp b)).
Proof.
  destruct a as [ sa | sa | | sa ma ea ], b as [ sb | sb | | sb mb eb ];
    try (left; reflexivity);
    try (destruct sa, sb; cbn; solve [ left; reflexivity | right; eauto ]).
  cbn [SFopp]. unfold SFadd. cbv zeta.
  set (X := Z.pos (fst (shl_align ma ea (Z.min ea eb)))).
  set (Y := Z.pos (fst (shl_align mb eb (Z.min ea eb)))).
  replace (Z.add (cond_Zopp (negb sa) X) (cond_Zopp (negb sb) Y))
    with (Z.opp (Z.add (cond_Zopp sa X) (cond_Zopp sb Y)))
    by (destruct sa, sb; cbn [negb cond_Zopp]; lia).
  rewrite binary_normalize_opp.
  destruct (Z.add (cond_Zopp sa X) (cond_Zopp sb Y)).
  - right. cbn. eauto.
  - left. reflexivity.
  - left. reflexivity.
Qed.

Lemma SFadd_oppish a b a' b' :
  SFoppish a a' -> SFoppish b b' ->
  SFoppish (SFadd prec emax a b) (SFadd prec emax a' b').
Proof.
  intros [-> | [[sa ->] [sa' ->]]] [-> | [[sb ->] [sb' ->]]].
  - apply SFadd_opp.
  - destruct a as [ sa | sa | | sa ma ea ];
      try (left; reflexivity);
      destruct sa, sb, sb'; cbn; solve [ left; reflexivity | right; eauto ].
  - destruct b as [ sb | sb | | sb mb eb ];
      try (left; reflexivity);
      destruct sa, sa', sb; cbn; solve [ left; reflexivity | right; eauto ].
  - destruct sa, sa', sb, sb'; cbn; right; eauto.
Qed.

Lemma add_oppish x y x' y' : oppish x x' -> oppish y y' -> oppish (x + y) (x' + y').
Proof. unfold oppish. rewrite !add_spec. apply SFadd_oppish. Qed.

Lemma mul_oppish x y : oppish (x * y) (x * - y).
Proof. unfold oppish. rewrite mul_opp_r, opp_spec. left. reflexivity. Qed.

(** Of two opposite values, one is not below zero or the other is not
    above it. *)
Lemma oppish_sign x y : oppish x y -> (x <? 0) = false -> (0 <? y) = false.
Proof.
  unfold oppish. rewrite !ltb_spec. change (Prim2SF 0) with (S754_zero false).
  intros [-> | [[s ->] [s' ->]]]; [ | reflexivity ].
  destruct (Prim2SF x) as [ s | [ | ] | | [ | ] m e ]; cbn; congruence.
Qed.

End Float64Opp.

(* ================================================================== *)
(** * Properties of the rotation *)
(* ================================================================== *)

Module rotation_props.

Import Float64 Float64Facts Float64Arith.
Local Open Scope float_scope.

Abbreviation Vector := raytracing.Vector.

(** [wide matrix]: the matrix has three rows of three entries at least. *)
Definition wide (matrix : list (list float64)) : Prop :=
  forall i, (i < 3)%nat ->
    exists r, nth_error matrix i = Some r /\ (3 <= List.length r)%nat.

Lemma row_defined (matrix : list (list float64)) (i : nat) (vector : Vector) :
  rotation.row matrix i vector <> None <->
  exists r, nth_error matrix i = Some r /\ (3 <= List.length r)%nat.
Proof.
  unfold rotation.row, rotation.entry.
  destruct (nth_error matrix i) as [ r | ].
  - destruct r as [ | a [ | b [ | c r ] ] ]; cbn [nth_error List.length]; split;
      try (intros N; exfalso; apply N; reflexivity);
      try (intros (r' & E & L); injection E as <-; cbn [List.length] in L; lia).
    + intros _. eexists. split; [ reflexivity | cbn [List.length]; lia ].
    + discriminate.
  - split; [ intros N; exfalso; apply N; reflexivity | intros (r & E & _); discriminate ].
Qed.

(** X15: [Multiply] returns a vector exactly when the matrix has at least
    three rows and each of the first three has at least three entries;
    on any other matrix the index expressions panic. *)
Theorem Multiply_returns_iff_wide (matrix : list (list float64)) (vector : Vector) :
  (exists product, rotation.Multiply matrix vector = scene.Returns product) <-> wide matrix.
Proof.
  unfold rotation.Multiply, wide. split.
  - intros [product E] i Li. apply (row_defined matrix i vector).
    destruct (rotation.row matrix 0 vector) eqn:R0; [ | discriminate ].
    destruct (rotation.row matrix 1 vector) eqn:R1; [ | discriminate ].
    destruct (rotation.row matrix 2 vector) eqn:R2; [ | discriminate ].
    destruct i as [ | [ | [ | i ] ] ]; [ | | | lia ]; congruence.
  - intros W.
    assert (R : forall i, (i < 3)%nat -> rotation.row matrix i vector <> None).
    { intros i Li. apply row_defined, W, Li. }
    destruct (rotation.row matrix 0 vector) eqn:R0; [ | exfalso; apply (R 0%nat); [ lia | assumption ] ].
    destruct (rotation.row matrix 1 vector) eqn:R1; [ | exfalso; apply (R 1%nat); [ lia | assumption ] ].
    destruct (rotation.row matrix 2 vector) eqn:R2; [ | exfalso; apply (R 2%nat); [ lia | assumption ] ].
    eexists. reflexivity.
Qed.

Section Trigonometry.

Variables Cos Sin : float64 -> float64.

(** X16: [Rotate] never panics, whatever [math.Cos] and [math.Sin]
    return.  It fails exactly when the computed magnitude of the axis is
    zero, and then returns the zero vector with the error; otherwise it
    returns the product of the rotation matrix of the normalized axis with
    the vector, and no error. *)
Theorem Rotate_fails_iff_zero_axis (v : Vector) (degrees : float64) (axis : Vector) :
  ((raytracing.Magnitude axis =? 0) = true ->
   rotation.Rotate Cos Sin v degrees axis =
   scene.Returns
     ({| raytracing.X := 0; raytracing.Y := 0; raytracing.Z := 0 |},
      Some "the zero vector cannot be used as an axis of rotation"%string)) /\
  ((raytracing.Magnitude axis =? 0) = false ->
   exists product,
     rotation.Multiply
       (rotation.rotationMatrix Cos Sin (degrees / 180.0 * rotation.Pi)
          (raytracing.Scale axis (1.0 / raytracing.Magnitude axis))) v
     = scene.Returns product /\
     rotation.Rotate Cos Sin v degrees axis = scene.Returns (product, None)).
Proof.
  unfold rotation.Rotate, raytracing.Normalize. cbv zeta. split; intros M.
  - rewrite (eqb_leb _ _ M). reflexivity.
  - destruct (raytracing.Magnitude axis <=? 0.0) eqn:L.
    + rewrite (leb_not_ltb_eqb _ _ L (raytracing_spec.Magnitude_not_negative axis)) in M.
      discriminate.
    + cbn [negb]. eexists. split; reflexivity.
Qed.

End Trigonometry.

End rotation_props.

(* ================================================================== *)
(** * Properties of the triangle *)
(* ================================================================== *)

Module triangle_props.

Import Float64 Float64Facts Float64Arith Float64Opp.
Local Open Scope float_scope.

Abbreviation Vector := raytracing.Vector.
Abbreviation Ray := raytracing.Ray.

(** X17: [Triangle.Intersect] either misses and returns the range it was
    given, or hits at a distance strictly between [1e-4] and that range. *)
Theorem Triangle_Intersect_contract (tr : Triangle.t) (r : Ray) (maxRange : float64) :
  Triangle.Intersect tr r maxRange = (false, maxRange) \/
  exists t, Triangle.Intersect tr r maxRange = (true, t) /\
            (1e-4 <? t) = true /\ (t <? maxRange) = true.
Proof.
  unfold Triangle.Intersect. cbv zeta.
  repeat match goal with
  | |- context [if ?c then _ else _] =>
      let E := fresh "E" in destruct c eqn:E; [ try (left; reflexivity) | ]
  end; try (left; reflexivity).
  apply andb_prop in E2. destruct E2 as [Lo Hi].
  right. eexists. split; [ reflexivity | split; assumption ].
Qed.

Lemma mul_nan_r x : x * nan = nan.
Proof.
  apply Prim2SF_inj. rewrite mul_spec. change (Prim2SF nan) with S754_nan.
  unfold SF64mul, SFmul. destruct (Prim2SF x); reflexivity.
Qed.

Lemma Cross_zero_l (d v : Vector) :
  zero (raytracing.X d) -> zero (raytracing.Y d) -> zero (raytracing.Z d) ->
  zeroish (raytracing.X (raytracing.Cross d v)) /\
  zeroish (raytracing.Y (raytracing.Cross d v)) /\
  zeroish (raytracing.Z (raytracing.Cross d v)).
Proof.
  intros Zx Zy Zz. unfold raytracing.Cross. cbn [raytracing.X raytracing.Y raytracing.Z].
  repeat split; apply sub_zeroish; apply mul_zeroish_l; apply zero_zeroish; assumption.
Qed.

Lemma Dot_zeroish_r (v h : Vector) :
  zeroish (raytracing.X h) -> zeroish (raytracing.Y h) -> zeroish (raytracing.Z h) ->
  zeroish (raytracing.Dot v h).
Proof.
  intros Zx Zy Zz. unfold raytracing.Dot.
  repeat apply add_zeroish; apply mul_zeroish_r; assumption.
Qed.

(** X18: a ray whose direction is the zero vector misses every triangle. *)
Theorem Triangle_no_direction (tr : Triangle.t) (r : Ray) (maxRange : float64) :
  (raytracing.X (raytracing.Direction r) =? 0) = true ->
  (raytracing.Y (raytracing.Direction r) =? 0) = true ->
  (raytracing.Z (raytracing.Direction r) =? 0) = true ->
  Triangle.Intersect tr r maxRange = (false, maxRange).
Proof.
  intros Zx Zy Zz. apply eqb_zero in Zx, Zy, Zz.
  unfold Triangle.Intersect. cbv zeta.
  destruct (Cross_zero_l (raytracing.Direction r) (Triangle.edge2 tr) Zx Zy Zz)
    as (Hx & Hy & Hz).
  destruct (Dot_zeroish_r (Triangle.edge1 tr) _ Hx Hy Hz) as [E | [E | E]];
    rewrite E; try reflexivity.
  change (1.0 / nan) with nan. rewrite !mul_nan_r. reflexivity.
Qed.

Lemma Dot_Negative (d n : Vector) :
  oppish (raytracing.Dot d n) (raytracing.Dot d (raytracing.Negative n)).
Proof.
  unfold raytracing.Dot, raytracing.Negative.
  cbn [raytracing.X raytracing.Y raytracing.Z].
  repeat apply add_oppish; apply mul_oppish.
Qed.

(** X19: the normal that [Triangle.SurfaceNormal] returns for a ray never
    points along the ray: its dot product with the direction of the ray is
    not above zero. *)
Theorem Triangle_SurfaceNormal_against_ray (tr : Triangle.t) (r : Ray) :
  (0 <? raytracing.Dot (raytracing.Direction r) (Triangle.SurfaceNormal tr r)) = false.
Proof.
  unfold Triangle.SurfaceNormal.
  destruct (raytracing.Dot (raytracing.Direction r) (Triangle.normal tr) <? 0.0) eqn:E.
  - apply ltb_asym. exact E.
  - apply (oppish_sign _ _ (Dot_Negative _ _) E).
Qed.

End triangle_props.

(* ================================================================== *)
(** * Properties of the scope and the lenses *)
(* ================================================================== *)

Module scope_props.

Import Float64 Float64Facts Float64Arith.
Local Open Scope float_scope.

Abbreviation Vector := raytracing.Vector.
Abbreviation Scope := camera.Scope.

(** [normalized v]: [v] is the result of a [Normalize] that succeeded. *)
Definition normalized (v : Vector) : Prop :=
  exists v0, raytracing.Normalize v0 = (v, true).

(** [ready s]: the three basis pointers of [s] are set, each to a vector
    that a successful [Normalize] returned. *)
Definition ready (s : Scope) : Prop :=
  exists right up forward,
    camera.Right s = Some right /\ camera.Up s = Some up /\
    camera.Forward s = Some forward /\
    normalized right /\ normalized up /\ normalized forward.

Lemma Normalize_normalized (v : Vector) :
  snd (raytracing.Normalize v) = true -> normalized (fst (raytracing.Normalize v)).
Proof. intros Ok. exists v. rewrite <- Ok. apply surjective_pairing. Qed.

Lemma normalizeBasis_success (aliased : bool) (s s' : Scope) (r u f : Vector) :
  scope.normalizeBasis aliased s r u f = (s', None) ->
  s' = scope.withBasis s (Some (fst (raytracing.Normalize r)))
         (Some (fst (raytracing.Normalize u))) (Some (fst (raytracing.Normalize f))) /\
  snd (raytracing.Normalize r) = true /\
  snd (raytracing.Normalize u) = true /\
  snd (raytracing.Normalize f) = true.
Proof.
  unfold scope.normalizeBasis.
  destruct (snd (raytracing.Normalize r)); cbn [negb]; [ | discriminate ].
  destruct (snd (raytracing.Normalize u)); cbn [negb]; [ | discriminate ].
  destruct (snd (raytracing.Normalize f)); cbn [negb]; [ | discriminate ].
  intros E. injection E as <-. repeat split.
Qed.

Lemma normalizeBasis_ready (aliased : bool) (s s' : Scope) (r u f : Vector) :
  scope.normalizeBasis aliased s r u f = (s', None) ->
  ready s' /\ camera.Position s' = camera.Position s /\
  camera.Target s' = camera.Target s /\ camera.Roll s' = camera.Roll s.
Proof.
  intros E. destruct (normalizeBasis_success _ _ _ _ _ _ E) as (-> & Or & Ou & Of).
  split; [ | repeat split ].
  do 3 eexists. cbn [scope.withBasis camera.Right camera.Up camera.Forward].
  split; [ reflexivity | split; [ reflexivity | split; [ reflexivity | ] ] ].
  split; [ | split ]; apply Normalize_normalized; assumption.
Qed.

Section Trigonometry.

Variables Cos Sin : float64 -> float64.

Lemma Rotate_returns (v : Vector) (degrees : float64) (axis : Vector) :
  exists result, rotation.Rotate Cos Sin v degrees axis = scene.Returns result.
Proof.
  unfold rotation.Rotate. destruct (raytracing.Normalize axis) as [a ok].
  destruct ok; cbn [negb]; eexists; reflexivity.
Qed.

Lemma Scope_Initialize_ready (s s' : Scope) :
  scope.Initialize Cos Sin s = scene.Returns (s', None) ->
  ready s' /\ camera.Position s' = camera.Position s /\
  camera.Target s' = camera.Target s /\ camera.Roll s' = camera.Roll s.
Proof.
  unfold scope.Initialize.
  destruct (camera.Target s) as [target | ] eqn:T; rewrite <- T.
  - destruct (raytracing.Normalize (raytracing.Subtract target (camera.Position s)))
      as [forward ok].
    destruct ok; cbn [negb]; [ | discriminate ].
    destruct (rotation.Rotate Cos Sin _ _ _) as [[up [err | ]] | ]; try discriminate.
    intros E. injection E as E. apply (normalizeBasis_ready _ _ _ _ _ _ E).
  - destruct (camera.Right s) as [r | ]; [ | discriminate ].
    destruct (snd (raytracing.Normalize r)); cbn [negb]; [ | discriminate ].
    destruct (camera.Up s) as [u | ]; [ | discriminate ].
    destruct (snd (raytracing.Normalize u)); cbn [negb]; [ | discriminate ].
    destruct (camera.Forward s) as [f | ]; [ | discriminate ].
    intros E. injection E as E. apply (normalizeBasis_ready _ _ _ _ _ _ E).
Qed.

(** X20: when [Scope.Initialize] returns no error, the three basis
    pointers of the scope are set, each to a vector that a successful
    [Normalize] returned, so that [GetRight], [GetUp] and [GetForward] do
    not panic; the position, the target and the roll are as before. *)
Theorem Scope_Initialize_success_sets_basis (s s' : Scope) :
  scope.Initialize Cos Sin s = scene.Returns (s', None) ->
  (exists right up forward,
     scope.GetRight s' = scene.Returns right /\
     scope.GetUp s' = scene.Returns up /\
     scope.GetForward s' = scene.Returns forward /\
     normalized right /\ normalized up /\ normalized forward) /\
  camera.Position s' = camera.Position s /\
  camera.Target s' = camera.Target s /\
  camera.Roll s' = camera.Roll s.
Proof.
  intros E. destruct (Scope_Initialize_ready s s' E) as [(r & u & f & Er & Eu & Ef & N) Same].
  split; [ | exact Same ].
  exists r, u, f. unfold scope.GetRight, scope.GetUp, scope.GetForward.
  rewrite Er, Eu, Ef. repeat split; apply N.
Qed.

(** X21: [Scope.Initialize] does not panic on a scope that has a target,
    nor on one whose three basis pointers are set.  A panic needs a scope
    without a target and with a [nil] pointer among the three. *)
Theorem Scope_Initialize_returns (s : Scope) :
  camera.Target s <> None \/
  (camera.Right s <> None /\ camera.Up s <> None /\ camera.Forward s <> None) ->
  exists result, scope.Initialize Cos Sin s = scene.Returns result.
Proof.
  unfold scope.Initialize. intros H.
  destruct (camera.Target s) as [target | ].
  - destruct (raytracing.Normalize _) as [forward ok].
    destruct ok; cbn [negb]; [ | eexists; reflexivity ].
    destruct (Rotate_returns
                (raytracing.Cross
                   (raytracing.Cross forward
                      (fst (raytracing.Normalize
                              {| raytracing.X := 0; raytracing.Y := 1; raytracing.Z := 0 |})))
                   forward)
                (- camera.Roll s) forward) as [[up [err | ]] ->];
      eexists; reflexivity.
  - destruct H as [H | (Hr & Hu & Hf)]; [ contradiction | ].
    destruct (camera.Right s) as [r | ]; [ | contradiction ].
    destruct (snd (raytracing.Normalize r)); cbn [negb]; [ | eexists; reflexivity ].
    destruct (camera.Up s) as [u | ]; [ | contradiction ].
    destruct (snd (raytracing.Normalize u)); cbn [negb]; [ | eexists; reflexivity ].
    destruct (camera.Forward s) as [f | ]; [ | contradiction ].
    eexists; reflexivity.
Qed.

(** X22: a scope whose target is its own position (with finite
    coordinates) is refused with the error of the first check, and is left
    as it was. *)
Theorem Scope_Initialize_target_at_position (s : Scope) :
  camera.Target s = Some (camera.Position s) ->
  finite (raytracing.X (camera.Position s)) ->
  finite (raytracing.Y (camera.Position s)) ->
  finite (raytracing.Z (camera.Position s)) ->
  scope.Initialize Cos Sin s =
  scene.Returns (s, Some "target and position are the same"%string).
Proof.
  intros T Fx Fy Fz. unfold scope.Initialize.
  rewrite T, (raytracing_props.Subtract_diag _ Fx Fy Fz). reflexivity.
Qed.

(** X23: without a target, an error of [Scope.Initialize] leaves the
    scope as it was: the normalized vectors are stored only after all
    three checks have passed. *)
Theorem Scope_Initialize_error_keeps_scope (s s' : Scope) (err : string) :
  camera.Target s = None ->
  scope.Initialize Cos Sin s = scene.Returns (s', Some err) ->
  s' = s.
Proof.
  intros T. unfold scope.Initialize, scope.normalizeBasis. rewrite T.
  destruct (camera.Right s) as [r | ]; [ | discriminate ].
  destruct (snd (raytracing.Normalize r)); cbn [negb];
    [ | intros E; injection E as <- _; reflexivity ].
  destruct (camera.Up s) as [u | ]; [ | discriminate ].
  destruct (snd (raytracing.Normalize u)); cbn [negb];
    [ | intros E; injection E as <- _; reflexivity ].
  destruct (camera.Forward s) as [f | ]; [ | discriminate ].
  destruct (snd (raytracing.Normalize f)); cbn [negb];
    [ discriminate | intros E; injection E as <- _; reflexivity ].
Qed.

(** X24: with a target, a successful [Scope.Initialize] does not read the
    right, up and forward vectors it was given: it returns the same scope
    whatever they were.  Initializing the scope it returned gives that
    scope again. *)
Theorem Scope_Initialize_target_overrides_basis (s s' : Scope) :
  camera.Target s <> None ->
  scope.Initialize Cos Sin s = scene.Returns (s', None) ->
  (forall right up forward,
     scope.Initialize Cos Sin (scope.withBasis s right up forward)
     = scene.Returns (s', None)) /\
  scope.Initialize Cos Sin s' = scene.Returns (s', None).
Proof.
  intros T E.
  assert (A : forall right up forward,
            scope.Initialize Cos Sin (scope.withBasis s right up forward)
            = scene.Returns (s', None)).
  { intros right up forward. revert E. unfold scope.Initialize.
    cbn [scope.withBasis camera.Target camera.Position camera.Roll].
    destruct (camera.Target s) as [target | ]; [ | contradiction ].
    destruct (raytracing.Normalize _) as [fw ok].
    destruct ok; cbn [negb]; [ | discriminate ].
    destruct (rotation.Rotate Cos Sin _ _ _) as [[u [err | ]] | ]; try discriminate.
    intros E. injection E as E. f_equal. rewrite <- E.
    unfold scope.normalizeBasis, scope.withBasis.
    cbn [camera.Target camera.Position camera.Roll].
    reflexivity. }
  split; [ exact A | ].
  pose proof E as E'. revert E'. unfold scope.Initialize at 1.
  destruct (camera.Target s) as [target | ]; [ | contradiction ].
  destruct (raytracing.Normalize _) as [fw ok].
  destruct ok; cbn [negb]; [ | discriminate ].
  destruct (rotation.Rotate Cos Sin _ _ _) as [[u [err | ]] | ]; try discriminate.
  intros E'. injection E' as E'.
  destruct (normalizeBasis_success _ _ _ _ _ _ E') as [-> _].
  apply A.
Qed.

End Trigonometry.

End scope_props.

(* ================================================================== *)
(** * Properties of the lenses *)
(* ================================================================== *)

Module lens_props.

Import Float64 Float64Facts Float64Arith.
Local Open Scope float_scope.

Abbreviation Vector := raytracing.Vector.
Abbreviation Ray := raytracing.Ray.
Abbreviation Scope := camera.Scope.

Section Trigonometry.

Variables Cos Sin : float64 -> float64.

Lemma setAspectRatio_focal (l l' : lens.PerspectiveLens.t) (ratio : float64) :
  lens.PerspectiveLens.setAspectRatio Cos Sin l ratio = (l', None) ->
  exists focalLength, lens.PerspectiveLens.FocalLength l' = Some focalLength.
Proof.
  unfold lens.PerspectiveLens.setAspectRatio.
  destruct (lens.PerspectiveLens.HFOV l =? 0.0); cbn [negb];
    destruct (lens.PerspectiveLens.FocalLength l) as [fl | ] eqn:F;
    try destruct (lens.PerspectiveLens.OpticalRadius l) as [orad | ];
    try discriminate;
    intros E; injection E as <-;
    cbn [lens.PerspectiveLens.withHeight lens.PerspectiveLens.FocalLength];
    eauto.
Qed.

(** X25: [PerspectiveLens.setAspectRatio] fails exactly when the focal
    length is missing and either the field of view is zero or the optical
    radius is missing too; it then leaves the lens as it was.  When it
    succeeds the lens has a focal length, its field of view is as before,
    and its view height is its view width divided by the ratio. *)
Theorem PerspectiveLens_setAspectRatio_cases (l : lens.PerspectiveLens.t) (ratio : float64) :
  let l' := fst (lens.PerspectiveLens.setAspectRatio Cos Sin l ratio) in
  let err := snd (lens.PerspectiveLens.setAspectRatio Cos Sin l ratio) in
  (err <> None <->
   lens.PerspectiveLens.FocalLength l = None /\
   ((lens.PerspectiveLens.HFOV l =? 0) = true \/
    lens.PerspectiveLens.OpticalRadius l = None)) /\
  (err <> None -> l' = l) /\
  (err = None ->
   lens.PerspectiveLens.FocalLength l' <> None /\
   lens.PerspectiveLens.HFOV l' = lens.PerspectiveLens.HFOV l /\
   lens.PerspectiveLens.viewHeight l' = lens.PerspectiveLens.ViewWidth l' / ratio).
Proof.
  cbv zeta. unfold lens.PerspectiveLens.setAspectRatio.
  destruct (lens.PerspectiveLens.HFOV l =? 0.0) eqn:H; cbn [negb];
    destruct (lens.PerspectiveLens.FocalLength l) as [fl | ] eqn:F;
    try destruct (lens.PerspectiveLens.OpticalRadius l) as [orad | ] eqn:O;
    cbn [fst snd lens.PerspectiveLens.withHeight lens.PerspectiveLens.FocalLength
         lens.PerspectiveLens.HFOV lens.PerspectiveLens.viewHeight
         lens.PerspectiveLens.ViewWidth];
    (split; [ split | split ]);
    try discriminate; try congruence; try tauto;
    try (intros [? ?]; discriminate);
    try (intros [? [? | ?]]; discriminate);
    try (intros _; repeat split; congruence).
Qed.

(** X26: after a successful [Scope.Initialize] and a successful
    [PerspectiveLens.setAspectRatio], [generateLightRay] of the perspective
    lens does not panic, and every ray it returns starts at the position
    of the camera. *)
Theorem PerspectiveLens_rays_from_position (l l' : lens.PerspectiveLens.t)
    (ratio : float64) (s s' : Scope) (screenX screenY : float64) :
  lens.PerspectiveLens.setAspectRatio Cos Sin l ratio = (l', None) ->
  scope.Initialize Cos Sin s = scene.Returns (s', None) ->
  exists direction,
    lens.PerspectiveLens.generateLightRay l' screenX screenY s' =
    scene.Returns {| raytracing.Position := camera.Position s;
                     raytracing.Direction := direction |}.
Proof.
  intros L S.
  destruct (scope_props.Scope_Initialize_ready Cos Sin s s' S)
    as [(r & u & f & Er & Eu & Ef & _) (P & _)].
  destruct (setAspectRatio_focal l l' ratio L) as [fl F].
  unfold lens.PerspectiveLens.generateLightRay, scope.GetForward, scope.GetRight,
    scope.GetUp.
  rewrite Ef, Er, Eu, F, P. cbn [scope.deref lens.bind]. eexists. reflexivity.
Qed.

(** X27: after a successful [Scope.Initialize], [generateLightRay] of the
    fisheye lens does not panic, whatever [math.Cos] and [math.Sin]
    return, and every ray it returns starts at the position of the
    camera. *)
Theorem FisheyeLens_rays_from_position (l : lens.FisheyeLens.t)
    (s s' : Scope) (screenX screenY : float64) :
  scope.Initialize Cos Sin s = scene.Returns (s', None) ->
  exists direction,
    lens.FisheyeLens.generateLightRay Cos Sin l screenX screenY s' =
    scene.Returns {| raytracing.Position := camera.Position s;
                     raytracing.Direction := direction |}.
Proof.
  intros S.
  destruct (scope_props.Scope_Initialize_ready Cos Sin s s' S)
    as [(r & u & f & Er & Eu & Ef & _) (P & _)].
  unfold lens.FisheyeLens.generateLightRay, scope.GetForward, scope.GetRight, scope.GetUp.
  rewrite Ef, Er, Eu, P. cbn [scope.deref lens.bind].
  destruct (scope_props.Rotate_returns Cos Sin f
              (screenY * lens.FisheyeLens.VFOV l / 2.0) r) as [first ->].
  cbn [lens.bind].
  destruct (scope_props.Rotate_returns Cos Sin (fst first)
              (- screenX * lens.FisheyeLens.HFOV l / 2.0) u) as [second ->].
  cbn [lens.bind]. eexists. reflexivity.
Qed.

End Trigonometry.

(** X28: after a successful [Scope.Initialize], the rays of an
    orthographic lens that has a view port are parallel: [generateLightRay]
    does not panic, and the direction of every ray is the forward vector
    of the scope, whatever the screen coordinates. *)
Theorem OrthographicLens_rays_parallel (Cos Sin : float64 -> float64)
    (l : lens.OrthographicLens.t) (s s' : Scope) :
  lens.OrthographicLens.ViewPort l <> None ->
  scope.Initialize Cos Sin s = scene.Returns (s', None) ->
  exists forward,
    scope.GetForward s' = scene.Returns forward /\
    forall screenX screenY, exists position,
      lens.OrthographicLens.generateLightRay l screenX screenY s' =
      scene.Returns {| raytracing.Position := position;
                       raytracing.Direction := forward |}.
Proof.
  intros V S.
  destruct (scope_props.Scope_Initialize_ready Cos Sin s s' S)
    as [(r & u & f & Er & Eu & Ef & _) _].
  destruct (lens.OrthographicLens.ViewPort l) as [v | ] eqn:Ev; [ | contradiction ].
  exists f. unfold scope.GetForward. rewrite Ef. split; [ reflexivity | ].
  intros screenX screenY.
  unfold lens.OrthographicLens.generateLightRay, scope.GetForward, scope.GetRight,
    scope.GetUp.
  rewrite Ef, Er, Eu, Ev. cbn [scope.deref lens.bind]. eexists. reflexivity.
Qed.

(** X29: an orthographic lens without a view port makes both
    [setAspectRatio] and [generateLightRay] panic, whatever the scope;
    nothing in the lens checks for the missing view port. *)
Theorem OrthographicLens_without_ViewPort (l : lens.OrthographicLens.t)
    (ratio screenX screenY : float64) (s : Scope) :
  lens.OrthographicLens.ViewPort l = None ->
  lens.OrthographicLens.setAspectRatio l ratio = scene.Panics /\
  lens.OrthographicLens.generateLightRay l screenX screenY s = scene.Panics.
Proof.
  intros V. unfold lens.OrthographicLens.setAspectRatio,
    lens.OrthographicLens.generateLightRay, scope.GetRight.
  rewrite V. split; [ reflexivity | ].
  destruct (camera.Right s); reflexivity.
Qed.

End lens_props.

(* ================================================================== *)
(** * Instances of the further properties *)
(* ================================================================== *)

Module instances.

Import Float64 examples.
Local Open Scope float_scope.

(** A ray without a direction. *)
Definition still : raytracing.Ray :=
  {| raytracing.Position := vec 0 0 0; raytracing.Direction := vec 0 0 0 |}.

(** The scene [shadowed] with its two objects in the other order. *)
Definition swapped : scene.Scene :=
  {| scene.Materials := [mirror];
     scene.Objects := [ball; wall];
     scene.Lights := [lamp];
     scene.ambientLight := rgb 0 0 0 |}.

(** The scene [shadowed] as [Initialize] leaves it. *)
Definition lit : scene.Scene :=
  {| scene.Materials := [mirror];
     scene.Objects := [wall; ball];
     scene.Lights := [lamp];
     scene.ambientLight := rgb 1 1 1 |}.

(** A triangle in the plane [z = 5], as [triangleFactory] builds it. *)
Definition corner : Triangle.t :=
  Triangle.triangleFactory
    {| Triangle.Material := Some 0%Z;
       Triangle.normal := vec 0 0 0;
       Triangle.edge1 := vec 0 0 0;
       Triangle.edge2 := vec 0 0 0;
       Triangle.A := vec 0 0 5; Triangle.B := vec 1 0 5; Triangle.C := vec 0 1 5 |}.

(** Stand-ins for [math.Cos] and [math.Sin] at the angle zero. *)
Definition Cos0 (angle : float64) : float64 := 1.
Definition Sin0 (angle : float64) : float64 := 0.

(** A scope given by its three vectors, and the scope [Initialize] makes
    of it. *)
Definition framed : camera.Scope :=
  {| camera.Position := vec 1 2 3; camera.Target := None; camera.Roll := 0;
     camera.Right := Some (vec 2 0 0); camera.Up := Some (vec 0 2 0);
     camera.Forward := Some (vec 0 0 2) |}.

Definition posed : camera.Scope :=
  scope.withBasis framed (Some (vec 1 0 0)) (Some (vec 0 1 0)) (Some (vec 0 0 1)).

(** A scope given by a target, and the scope [Initialize] makes of it. *)
Definition aimed : camera.Scope :=
  {| camera.Position := vec 0 0 0; camera.Target := Some (vec 0 0 2); camera.Roll := 0;
     camera.Right := None; camera.Up := None; camera.Forward := None |}.

Definition sighted : camera.Scope :=
  scope.withBasis aimed (Some (vec (-1) 0 0)) (Some (vec 0 1 0)) (Some (vec 0 0 1)).

(** A scope whose target is its position, and one whose right vector is
    the zero vector. *)
Definition inward : camera.Scope :=
  {| camera.Position := vec 1 2 3; camera.Target := Some (vec 1 2 3); camera.Roll := 0;
     camera.Right := None; camera.Up := None; camera.Forward := None |}.

Definition collapsed : camera.Scope :=
  {| camera.Position := vec 0 0 0; camera.Target := None; camera.Roll := 0;
     camera.Right := Some (vec 0 0 0); camera.Up := None; camera.Forward := None |}.

(** The three lenses. *)
Definition tele : lens.PerspectiveLens.t :=
  {| lens.PerspectiveLens.OpticalRadius := None;
     lens.PerspectiveLens.FocalLength := Some 1;
     lens.PerspectiveLens.HFOV := 0;
     lens.PerspectiveLens.ViewWidth := 2;
     lens.PerspectiveLens.viewHeight := 0;
     lens.PerspectiveLens.namedLens := Some "perspective"%string |}.

Definition fisheye : lens.FisheyeLens.t :=
  {| lens.FisheyeLens.HFOV := 90;
     lens.FisheyeLens.VFOV := 45;
     lens.FisheyeLens.namedLens := Some "fisheye"%string |}.

Definition orthographic : lens.OrthographicLens.t :=
  {| lens.OrthographicLens.ViewPort :=
       Some {| lens.ViewPort.ViewWidth := 2; lens.ViewPort.viewHeight := 1 |};
     lens.OrthographicLens.namedLens := Some "orthographic"%string |}.

Definition blind : lens.OrthographicLens.t :=
  {| lens.OrthographicLens.ViewPort := None;
     lens.OrthographicLens.namedLens := Some "orthographic"%string |}.

Lemma coincident_light_skipped_lamp :
  raytracing.lambertianStep (vec 0 0 0) (vec 0 0 1) mirror (rgb 1 1 1) lamp = rgb 1 1 1 /\
  raytracing.phongStep (fun x _ => x) (vec 0 0 1) (vec 0 0 0) (vec 0 0 1) mirror
    (rgb 1 1 1) lamp = rgb 1 1 1.
Proof.
  apply (raytracing_props.coincident_light_skipped (fun x _ => x) (vec 0 0 1) (vec 0 0 0)
           (vec 0 0 1) mirror (rgb 1 1 1) lamp); reflexivity.
Defined.

Lemma Intersect_monotone_in_range_ball :
  object.Intersect ball axis 50 = (true, 4) /\
  object.Intersect ball axis 100 = (true, 4).
Proof.
  assert (H : object.Intersect ball axis 50 = (true, 4)) by (vm_compute; reflexivity).
  split; [ exact H | ].
  apply (proj1 (object_props.Intersect_monotone_in_range ball axis 50 100
                  ltac:(reflexivity)) 4 H).
Defined.

Lemma Intersect_no_direction_ball :
  object.Intersect ball still 100 = (false, 100).
Proof. apply object_props.Intersect_no_direction; reflexivity. Defined.

Lemma FindIntersection_first_of_nearest_shadowed :
  scene.FindIntersection shadowed axis = (true, 4, 1%Z) /\
  (snd (fst (scene.FindIntersection shadowed axis)) <? 10) = true.
Proof.
  assert (E : scene.FindIntersection shadowed axis = (true, 4, 1%Z))
    by (vm_compute; reflexivity).
  split; [ exact E | ].
  apply (scene_props.FindIntersection_first_of_nearest shadowed axis 0 wall 100 10).
  - rewrite E. reflexivity.
  - rewrite E. cbn [snd]. lia.
  - reflexivity.
  - vm_compute. reflexivity.
Defined.

Lemma FindIntersection_order_independent_swapped :
  fst (scene.FindIntersection shadowed axis) = fst (scene.FindIntersection swapped axis).
Proof.
  apply scene_props.FindIntersection_order_independent. apply perm_swap.
Defined.

Lemma coincident_light_visible_lamp :
  In lamp (scene.visibleLights shadowed (vec 0 0 0)).
Proof.
  apply (proj2 (scene_props.coincident_light_visible shadowed (vec 0 0 0) lamp
                  ltac:(left; reflexivity) ltac:(reflexivity) ltac:(reflexivity)
                  ltac:(reflexivity) ltac:(reflexivity))).
Defined.

Lemma Initialize_idempotent_shadowed :
  scene.Initialize lit = scene.Returns (lit, None).
Proof.
  apply (scene_props.Initialize_idempotent shadowed lit None). vm_compute. reflexivity.
Defined.

Lemma Initialize_ambient_mean_shadowed :
  scene.Initialize shadowed = scene.Returns (lit, None).
Proof.
  assert (V : Forall (scene_spec.resolves (scene.len (scene.Materials shadowed)))
                (scene.Objects shadowed)).
  { repeat constructor; cbn; lia. }
  pose proof (scene_props.Initialize_ambient_mean shadowed V) as H. cbv zeta in H.
  rewrite H. vm_compute. reflexivity.
Defined.

Lemma TraceRay_safe_after_Initialize_shadowed :
  scene.TraceRay 0 lit axis 1 0 lambertian <> Some scene.Panics.
Proof.
  apply (scene_props.TraceRay_safe_after_Initialize shadowed lit). vm_compute. reflexivity.
Defined.

Lemma Triangle_no_direction_corner :
  Triangle.Intersect corner still 100 = (false, 100).
Proof. apply triangle_props.Triangle_no_direction; reflexivity. Defined.

Lemma Scope_Initialize_success_sets_basis_framed :
  scope.Initialize Cos0 Sin0 framed = scene.Returns (posed, None) /\
  camera.Position posed = camera.Position framed.
Proof.
  assert (E : scope.Initialize Cos0 Sin0 framed = scene.Returns (posed, None))
    by (vm_compute; reflexivity).
  split; [ exact E | ].
  apply (scope_props.Scope_Initialize_success_sets_basis Cos0 Sin0 framed posed E).
Defined.

Lemma Scope_Initialize_returns_aimed :
  exists result, scope.Initialize Cos0 Sin0 aimed = scene.Returns result.
Proof.
  apply scope_props.Scope_Initialize_returns. left. cbn. discriminate.
Defined.

Lemma Scope_Initialize_target_at_position_inward :
  scope.Initialize Cos0 Sin0 inward =
  scene.Returns (inward, Some "target and position are the same"%string).
Proof.
  apply scope_props.Scope_Initialize_target_at_position; reflexivity.
Defined.

Lemma Scope_Initialize_error_keeps_scope_collapsed :
  scope.Initialize Cos0 Sin0 collapsed =
  scene.Returns (collapsed, Some "vector 'right' is a zero vector"%string) /\
  collapsed = collapsed.
Proof.
  assert (E : scope.Initialize Cos0 Sin0 collapsed =
              scene.Returns (collapsed, Some "vector 'right' is a zero vector"%string))
    by (vm_compute; reflexivity).
  split; [ exact E | ].
  apply (scope_props.Scope_Initialize_error_keeps_scope Cos0 Sin0 collapsed collapsed _
           ltac:(reflexivity) E).
Defined.

Lemma Scope_Initialize_target_overrides_basis_aimed :
  scope.Initialize Cos0 Sin0 aimed = scene.Returns (sighted, None) /\
  scope.Initialize Cos0 Sin0 sighted = scene.Returns (sighted, None).
Proof.
  assert (E : scope.Initialize Cos0 Sin0 aimed = scene.Returns (sighted, None))
    by (vm_compute; reflexivity).
  split; [ exact E | ].
  apply (scope_props.Scope_Initialize_target_overrides_basis Cos0 Sin0 aimed sighted
           ltac:(cbn; discriminate) E).
Defined.

Lemma PerspectiveLens_rays_from_position_tele :
  exists direction,
    lens.PerspectiveLens.generateLightRay (lens.PerspectiveLens.withHeight tele 2)
      0.5 0.5 posed =
    scene.Returns {| raytracing.Position := vec 1 2 3;
                     raytracing.Direction := direction |}.
Proof.
  apply (lens_props.PerspectiveLens_rays_from_position Cos0 Sin0 tele
           (lens.PerspectiveLens.withHeight tele 2) 2 framed posed 0.5 0.5);
    vm_compute; reflexivity.
Defined.

Lemma FisheyeLens_rays_from_position_fisheye :
  exists direction,
    lens.FisheyeLens.generateLightRay Cos0 Sin0 fisheye 0.5 0.5 posed =
    scene.Returns {| raytracing.Position := vec 1 2 3;
                     raytracing.Direction := direction |}.
Proof.
  apply (lens_props.FisheyeLens_rays_from_position Cos0 Sin0 fisheye framed posed 0.5 0.5).
  vm_compute. reflexivity.
Defined.

Lemma OrthographicLens_rays_parallel_orthographic :
  exists forward,
    scope.GetForward posed = scene.Returns forward /\
    forall screenX screenY, exists position,
      lens.OrthographicLens.generateLightRay orthographic screenX screenY posed =
      scene.Returns {| raytracing.Position := position;
                       raytracing.Direction := forward |}.
Proof.
  apply (lens_props.OrthographicLens_rays_parallel Cos0 Sin0 orthographic framed posed).
  - cbn. discriminate.
  - vm_compute. reflexivity.
Defined.

Lemma OrthographicLens_without_ViewPort_blind :
  lens.OrthographicLens.setAspectRatio blind 2 = scene.Panics /\
  lens.OrthographicLens.generateLightRay blind 0.5 0.5 posed = scene.Panics.
Proof. apply lens_props.OrthographicLens_without_ViewPort. reflexivity. Defined.

End instances.
